(** * A shallow embedding of the recommendation core of my-streamlit-app

    Two Streamlit applications share a recommendation core:
    - [src/my-streamlit-app/app.py], the movie quiz: [score_answers],
      [pick_top_genres], [build_result_reason], [fetch_movies_for_profile],
      [pick_top_unique] and [build_mixed_recommendations];
    - [src/app.py], MoodPick: [tmdb_discover], [tmdb_search_multi],
      [build_weighted_genre_lists], [dedupe_items] and
      [tmdb_get_recommendations_weighted].

    Modelling conventions.
    - Python exceptions are the constructors of [exn]; a function that may
      raise returns a [result].
    - Python dicts whose iteration order matters are association lists.
    - JSON values received from the catalog are the type [json]; JSON
      numbers are modelled as integers (identifiers are integers; ratings
      are only compared, so a rating is represented at a fixed scale).
    - Python floats in ratios and percentages are exact rationals [Q];
      [py_round] is Python's [round] (half to even). *)

From Stdlib Require Import List String Ascii ZArith QArith Qround Lia Lqa.
From Stdlib Require Import Permutation Sorted Bool.
Import ListNotations.
Open Scope string_scope.
Open Scope Z_scope.
Set Warnings "-register-all".

(* ================================================================= *)
(** ** Python runtime: exceptions, results, JSON values *)

Inductive exn : Type :=
| ConnectionError
| HTTPError
| JSONDecodeError
| AttributeError
| TypeError
| KeyError (k : string).

Inductive result (A : Type) : Type :=
| Ok (a : A)
| Err (e : exn).
Arguments Ok {A} a.
Arguments Err {A} e.

Definition bind {A B} (m : result A) (k : A -> result B) : result B :=
  match m with Ok a => k a | Err e => Err e end.

Notation "x <- m ;; k" := (bind m (fun x => k))
  (at level 61, m at next level, right associativity).

(** A JSON value as decoded by [r.json()]. *)
Inductive json : Type :=
| JNull
| JBool (b : bool)
| JNum (n : Z)
| JStr (s : string)
| JArr (xs : list json)
| JObj (kvs : list (string * json)).

(** Python truthiness of a decoded JSON value. *)
Definition truthy (v : json) : bool :=
  match v with
  | JNull => false
  | JBool b => b
  | JNum n => negb (n =? 0)
  | JStr s => negb (String.eqb s "")
  | JArr xs => match xs with [] => false | _ => true end
  | JObj kvs => match kvs with [] => false | _ => true end
  end.

(** [a or b] *)
Definition py_or (a b : json) : json := if truthy a then a else b.

Fixpoint assoc {V} (k : string) (l : list (string * V)) : option V :=
  match l with
  | [] => None
  | (k', v) :: l' => if String.eqb k k' then Some v else assoc k l'
  end.

(** [d.get(k, default)]: only dicts have [.get]. *)
Definition py_get (d : json) (k : string) (default : json) : result json :=
  match d with
  | JObj kvs => Ok (match assoc k kvs with Some v => v | None => default end)
  | _ => Err AttributeError
  end.

Definition string_chars (s : string) : list json :=
  map (fun c => JStr (String c EmptyString)) (list_ascii_of_string s).

(** [for x in v]: iterating a list, a dict (its keys) or a string. *)
Definition py_iter (v : json) : result (list json) :=
  match v with
  | JArr xs => Ok xs
  | JObj kvs => Ok (map (fun kv => JStr (fst kv)) kvs)
  | JStr s => Ok (string_chars s)
  | _ => Err TypeError
  end.

(** Hashable values as members of a Python [set]: [True == 1] and
    [False == 0]; lists and dicts are unhashable. *)
Inductive hval : Type :=
| HNone
| HInt (n : Z)
| HStr (s : string).

Definition hval_eq_dec (a b : hval) : {a = b} + {a <> b}.
Proof. decide equality; [apply Z.eq_dec | apply string_dec]. Defined.

Definition to_hash (v : json) : result hval :=
  match v with
  | JNull => Ok HNone
  | JBool b => Ok (HInt (if b then 1 else 0))
  | JNum n => Ok (HInt n)
  | JStr s => Ok (HStr s)
  | _ => Err TypeError
  end.

Definition mem_h (x : hval) (s : list hval) : bool :=
  existsb (fun y => if hval_eq_dec x y then true else false) s.

(** The outcome of one [requests.get]. [Response status None] is a body
    that [r.json()] cannot decode. *)
Inductive http_outcome : Type :=
| TransportFailure
| Response (status : Z) (body : option json).

(** [r.raise_for_status()] raises on 4xx and 5xx statuses. *)
Definition status_error (s : Z) : bool := (400 <=? s) && (s <? 600).

(** [r.raise_for_status(); return r.json()] *)
Definition http_json (o : http_outcome) : result json :=
  match o with
  | TransportFailure => Err ConnectionError
  | Response s b =>
      if status_error s then Err HTTPError
      else match b with Some d => Ok d | None => Err JSONDecodeError end
  end.

(** Python [round] on an exact rational: round half to even. *)
Definition py_round (q : Q) : Z :=
  let f := Qfloor q in
  let frac := Qminus q (inject_Z f) in
  match Qcompare frac (1 # 2) with
  | Lt => f
  | Gt => f + 1
  | Eq => if Z.even f then f else f + 1
  end.

Fixpoint sumZ (l : list Z) : Z :=
  match l with [] => 0 | x :: l' => x + sumZ l' end.

(** A stable insertion sort on precomputed keys: [x] goes before the
    first element whose key is not smaller, so equal keys keep their
    input order, as Python's [sorted] does. *)
Section StableSort.
Context {A : Type} (le : A -> A -> bool).

Fixpoint insert_by (x : A) (l : list A) : list A :=
  match l with
  | [] => [x]
  | y :: l' => if le x y then x :: l else y :: insert_by x l'
  end.

Fixpoint sort_by (l : list A) : list A :=
  match l with
  | [] => []
  | x :: l' => insert_by x (sort_by l')
  end.
End StableSort.

(** Lexicographic order on the sort keys [(a, b)] of the code. *)
Definition key_le (k1 k2 : Z * Z) : bool :=
  (fst k1 <? fst k2) || ((fst k1 =? fst k2) && (snd k1 <=? snd k2)).

Definition keyed_le {A} (x y : (Z * Z) * A) : bool := key_le (fst x) (fst y).

(* ================================================================= *)
(** ** The movie quiz: configuration ([TEAM_TUNING], [GENRES]) *)

Record GenreProfile : Type := {
  key : string;
  label : string;
  tmdb_ids : list Z;
  base_reason : string
}.

Definition QUESTION_WEIGHTS : list (string * Z) :=
  [("q1", 1); ("q2", 1); ("q3", 1); ("q4", 2); ("q5", 2)].

Definition TIE_BREAKER_ORDER : list string :=
  ["sf_fantasy"; "action_adventure"; "romance_drama"; "comedy"].

Definition MIXED_GENRE_TOP_N : nat := 2.

Definition MIXED_GENRE_RATIO : list Q := [6 # 10; 4 # 10].

Definition RECOMMEND_COUNT : Z := 6.

Definition GENRES : list (string * GenreProfile) := [
  ("romance_drama", {| key := "romance_drama"; label := "로맨스/드라마";
     tmdb_ids := [10749; 18];
     base_reason := "감정선과 관계의 변화를 좋아하는 편이라, 여운이 긴 이야기와 몰입감 있는 드라마가 잘 맞아요." |});
  ("action_adventure", {| key := "action_adventure"; label := "액션/어드벤처";
     tmdb_ids := [28];
     base_reason := "짜릿한 전개와 도전/성장 서사를 선호해서, 속도감 있는 액션 계열이 딱이에요." |});
  ("sf_fantasy", {| key := "sf_fantasy"; label := "SF/판타지";
     tmdb_ids := [878; 14];
     base_reason := "세계관·상상력·설정에 끌리는 편이라, 현실을 확장하는 SF/판타지가 잘 맞아요." |});
  ("comedy", {| key := "comedy"; label := "코미디";
     tmdb_ids := [35];
     base_reason := "웃음 포인트와 가벼운 템포를 즐겨서, 스트레스 풀기 좋은 코미디가 잘 맞아요." |})
].

Definition genre_keys : list string := map fst GENRES.

(** [GENRES[k]] *)
Definition genre (k : string) : result GenreProfile :=
  match assoc k GENRES with Some p => Ok p | None => Err (KeyError k) end.

(* ================================================================= *)
(** ** Scoring and decision *)

(** [TEAM_TUNING["QUESTION_WEIGHTS"].get(qid, 1)] *)
Definition weight (qid : string) : Z :=
  match assoc qid QUESTION_WEIGHTS with Some w => w | None => 1 end.

(** [scores[k] += w] on a dict: raises [KeyError] for a missing key and
    keeps the insertion order otherwise. *)
Fixpoint add_score (k : string) (w : Z) (scores : list (string * Z))
  : result (list (string * Z)) :=
  match scores with
  | [] => Err (KeyError k)
  | (k', v) :: rest =>
      if String.eqb k k' then Ok ((k', v + w) :: rest)
      else r <- add_score k w rest ;; Ok ((k', v) :: r)
  end.

Fixpoint score_loop (answers : list (string * string)) (scores : list (string * Z))
  : result (list (string * Z)) :=
  match answers with
  | [] => Ok scores
  | (qid, gkey) :: rest =>
      s <- add_score gkey (weight qid) scores ;; score_loop rest s
  end.

(** [score_answers(answers)]; [answers] is the dict in insertion order. *)
Definition score_answers (answers : list (string * string)) : result (list (string * Z)) :=
  score_loop answers (map (fun k => (k, 0)) genre_keys).

Fixpoint index_of (k : string) (l : list string) (i : Z) : option Z :=
  match l with
  | [] => None
  | k' :: l' => if String.eqb k k' then Some i else index_of k l' (i + 1)
  end.

(** [tie_rank.get(k, 999)] *)
Definition tie_rank (k : string) : Z :=
  match index_of k TIE_BREAKER_ORDER 0 with Some i => i | None => 999 end.

(** The sort key [(-score, tie_rank.get(k, 999))]. *)
Definition genre_sort_key (kv : string * Z) : Z * Z := (- snd kv, tie_rank (fst kv)).

Definition decorate_scores (scores : list (string * Z)) : list ((Z * Z) * (string * Z)) :=
  map (fun kv => (genre_sort_key kv, kv)) scores.

(** [sorted(scores.items(), key=...)] *)
Definition ordered_scores (scores : list (string * Z)) : list (string * Z) :=
  map snd (sort_by keyed_le (decorate_scores scores)).

(** [pick_top_genres(scores, top_n)] *)
Definition pick_top_genres (scores : list (string * Z)) (top_n : nat) : list string :=
  map fst (firstn top_n (ordered_scores scores)).

(** Decimal rendering of an integer, as in an f-string. *)
Fixpoint digits_of (fuel : nat) (n : Z) (acc : string) : string :=
  match fuel with
  | O => acc
  | S f =>
      let d := Z.modulo n 10 in
      let c := ascii_of_nat (48 + Z.to_nat d) in
      if n <? 10 then String c acc else digits_of f (Z.div n 10) (String c acc)
  end.

Definition str_Z (n : Z) : string :=
  if n <? 0 then "-" ++ digits_of 64 (- n) "" else digits_of 64 n "".

Fixpoint join (sep : string) (l : list string) : string :=
  match l with
  | [] => ""
  | [x] => x
  | x :: l' => x ++ sep ++ join sep l'
  end.

(** [scores[k]] *)
Definition score_of (k : string) (scores : list (string * Z)) : result Z :=
  match assoc k scores with Some v => Ok v | None => Err (KeyError k) end.

Fixpoint reason_parts (top_keys : list string) (scores : list (string * Z)) (total : Z)
  : result (list string) :=
  match top_keys with
  | [] => Ok []
  | k :: ks =>
      s <- score_of k scores ;;
      let pct := py_round (Qmult (Qdiv (inject_Z s) (inject_Z total)) (inject_Z 100)) in
      g <- genre k ;;
      rest <- reason_parts ks scores total ;;
      Ok ((label g ++ " " ++ str_Z pct ++ "%") :: rest)
  end.

(** [build_result_reason(top_keys, scores)]; [sum(...) or 1]. *)
Definition build_result_reason (top_keys : list string) (scores : list (string * Z))
  : result string :=
  let s := sumZ (map snd scores) in
  let total := if s =? 0 then 1 else s in
  parts <- reason_parts top_keys scores total ;; Ok (join " / " parts).

Example score_example :
  score_answers [("q1", "sf_fantasy"); ("q2", "comedy"); ("q3", "sf_fantasy");
                 ("q4", "comedy"); ("q5", "sf_fantasy")]
  = Ok [("romance_drama", 0); ("action_adventure", 0); ("sf_fantasy", 4); ("comedy", 3)].
Proof. reflexivity. Qed.

Example pick_example :
  pick_top_genres [("romance_drama", 0); ("action_adventure", 0); ("sf_fantasy", 4); ("comedy", 3)] 2
  = ["sf_fantasy"; "comedy"].
Proof. reflexivity. Qed.

Example reason_example :
  build_result_reason ["sf_fantasy"] [("romance_drama", 0); ("action_adventure", 0); ("sf_fantasy", 3); ("comedy", 2)]
  = Ok "SF/판타지 60%".
Proof. reflexivity. Qed.

(* ================================================================= *)
(** ** Mixed recommendations: budgets, fetching and picking *)

(** [(ratios + [0.0] * len(top_keys))[: len(top_keys)]] *)
Definition pad_ratios (ratios : list Q) (n : nat) : list Q :=
  firstn n (ratios ++ repeat 0%Q n).

(** [[max(0, int(round(total_count * r))) for r in ratios]] *)
Definition rounded_counts (total_count : Z) (ratios : list Q) : list Z :=
  map (fun r => Z.max 0 (py_round (Qmult (inject_Z total_count) r))) ratios.

(** The budgets of [build_mixed_recommendations], for a ratio list:
    [diff = total_count - sum(counts); if counts: counts[0] += diff]. *)
Definition budget_counts (ratios : list Q) (top_keys : list string) (total_count : Z)
  : list Z :=
  let counts := rounded_counts total_count (pad_ratios ratios (List.length top_keys)) in
  let diff := total_count - sumZ counts in
  match counts with
  | [] => []
  | c :: cs => (c + diff) :: cs
  end.

Example budget_example_5 :
  budget_counts MIXED_GENRE_RATIO ["a"; "b"] 5 = [3; 2].
Proof. reflexivity. Qed.

Example budget_example_7 :
  budget_counts MIXED_GENRE_RATIO ["a"; "b"] 7 = [4; 3].
Proof. reflexivity. Qed.

(** Python [str.strip()] with no argument. Strings are UTF-8 byte
    strings; the characters removed are those of [str.isspace()]. *)
Definition PY_WHITESPACE : list N :=
  [9; 10; 11; 12; 13; 28; 29; 30; 31; 32; 133; 160; 5760;
   8192; 8193; 8194; 8195; 8196; 8197; 8198; 8199; 8200; 8201; 8202;
   8232; 8233; 8239; 8287; 12288]%N.

(** The UTF-8 encoding of a code point below [U+10000]. *)
Definition utf8_encode (n : N) : list ascii :=
  if (n <? 128)%N then [ascii_of_N n]
  else if (n <? 2048)%N then
    [ascii_of_N (192 + n / 64); ascii_of_N (128 + n mod 64)]
  else
    [ascii_of_N (224 + n / 4096); ascii_of_N (128 + (n / 64) mod 64);
     ascii_of_N (128 + n mod 64)].

Definition WS_SEQS : list (list ascii) := map utf8_encode PY_WHITESPACE.

Fixpoint prefixb (w l : list ascii) : bool :=
  match w, l with
  | [], _ => true
  | a :: w', b :: l' => Ascii.eqb a b && prefixb w' l'
  | _ :: _, [] => false
  end.

(** Drops leading byte sequences of [ws], one at a time; each step drops
    at least one byte, so [length l] steps suffice. *)
Fixpoint strip_fuel (ws : list (list ascii)) (n : nat) (l : list ascii) : list ascii :=
  match n with
  | O => l
  | S n' =>
      match find (fun w => prefixb w l) ws with
      | Some w => strip_fuel ws n' (skipn (List.length w) l)
      | None => l
      end
  end.

Definition lstrip_with (ws : list (list ascii)) (l : list ascii) : list ascii :=
  strip_fuel ws (List.length l) l.

(** [lstrip] on the bytes, then [rstrip] as an [lstrip] of the reversed
    bytes by the reversed encodings. *)
Definition py_strip (s : string) : string :=
  string_of_list_ascii
    (rev (lstrip_with (map (@rev ascii) WS_SEQS)
            (rev (lstrip_with WS_SEQS (list_ascii_of_string s))))).

Section MovieCatalog.
(** The discover endpoint of the catalog, for the [api_key], [language]
    and [sort_by] of the current request: its outcome for a genre id and
    a page. [st.cache_data] memoises calls, which does not change the
    values returned by this deterministic stub. *)
Variable fetch : Z -> Z -> http_outcome.

(** [tmdb_discover(...)]: [r.raise_for_status(); r.json().get("results", [])] *)
Definition tmdb_discover_movie (genre_id page : Z) : result json :=
  d <- http_json (fetch genre_id page) ;; py_get d "results" (JArr []).

(** The loop [for m in chunk] of [fetch_movies_for_profile]. *)
Fixpoint chunk_loop (ms : list json) (results : list json) (seen : list hval)
  : result (list json * list hval) :=
  match ms with
  | [] => Ok (results, seen)
  | m :: ms' =>
      mid <- py_get m "id" JNull ;;
      if negb (truthy mid) then chunk_loop ms' results seen
      else h <- to_hash mid ;;
           if mem_h h seen then chunk_loop ms' results seen
           else chunk_loop ms' (results ++ [m])%list (h :: seen)
  end.

Definition enough (need : Z) (results : list json) : bool :=
  need * 3 <=? Z.of_nat (List.length results).

(** [for page in (1, 2): ...; if len(results) >= need * 3: break] *)
Fixpoint page_loop (gid need : Z) (pages : list Z) (results : list json) (seen : list hval)
  : result (list json * list hval) :=
  match pages with
  | [] => Ok (results, seen)
  | page :: ps =>
      chunk <- tmdb_discover_movie gid page ;;
      ms <- py_iter chunk ;;
      st <- chunk_loop ms results seen ;;
      if enough need (fst st) then Ok st
      else page_loop gid need ps (fst st) (snd st)
  end.

(** [for gid in profile.tmdb_ids: ...; if len(results) >= need * 3: break] *)
Fixpoint gid_loop (need : Z) (gids : list Z) (results : list json) (seen : list hval)
  : result (list json * list hval) :=
  match gids with
  | [] => Ok (results, seen)
  | gid :: gs =>
      st <- page_loop gid need [1; 2] results seen ;;
      if enough need (fst st) then Ok st
      else gid_loop need gs (fst st) (snd st)
  end.

(** [fetch_movies_for_profile(api_key, profile, language, sort_by, need)] *)
Definition fetch_movies_for_profile (profile : GenreProfile) (need : Z) : result (list json) :=
  st <- gid_loop need (tmdb_ids profile) [] [] ;; Ok (fst st).
End MovieCatalog.

(** [rating(m)]: [vote_average] when it is a number (a [bool] is an
    [int] in Python), [0.0] otherwise. *)
Definition rating (m : json) : result Z :=
  v <- py_get m "vote_average" JNull ;;
  Ok (match v with JNum n => n | JBool b => if b then 1 else 0 | _ => 0 end).

(** The key [(m.get("poster_path") is None, -rating(m))]. *)
Definition poster_key (m : json) : result (Z * Z) :=
  p <- py_get m "poster_path" JNull ;;
  r <- rating m ;;
  Ok ((match p with JNull => 1 | _ => 0 end), - r).

Fixpoint decorate_movies (ms : list json) : result (list ((Z * Z) * json)) :=
  match ms with
  | [] => Ok []
  | m :: ms' => k <- poster_key m ;; rest <- decorate_movies ms' ;; Ok ((k, m) :: rest)
  end.

(** [(m.get("title") or "").strip()] *)
Definition movie_title (m : json) : result string :=
  t <- py_get m "title" JNull ;;
  match py_or t (JStr "") with
  | JStr s => Ok (py_strip s)
  | _ => Err AttributeError
  end.

Fixpoint unique_loop (ms : list json) (limit : Z) (out : list json) (seen_titles : list string)
  : result (list json) :=
  match ms with
  | [] => Ok out
  | m :: ms' =>
      title <- movie_title m ;;
      if String.eqb title "" || existsb (String.eqb title) seen_titles
      then unique_loop ms' limit out seen_titles
      else let out' := (out ++ [m])%list in
           if limit <=? Z.of_nat (List.length out') then Ok out'
           else unique_loop ms' limit out' (title :: seen_titles)
  end.

(** [pick_top_unique(movies, limit, poster_first)] *)
Definition pick_top_unique (movies : list json) (limit : Z) (poster_first : bool)
  : result (list json) :=
  ms <- (if poster_first
         then d <- decorate_movies movies ;; Ok (map snd (sort_by keyed_le d))
         else Ok movies) ;;
  unique_loop ms limit [] [].

Section Mixed.
Variable fetch : Z -> Z -> http_outcome.

Fixpoint mixed_loop (pairs : list (string * Z)) : result (list (string * json)) :=
  match pairs with
  | [] => Ok []
  | (gkey, n) :: rest =>
      if n <=? 0 then mixed_loop rest
      else prof <- genre gkey ;;
           pool <- fetch_movies_for_profile fetch prof n ;;
           picks <- pick_top_unique pool n true ;;
           tail <- mixed_loop rest ;;
           Ok (map (fun m => (gkey, m)) picks ++ tail)%list
  end.

(** [build_mixed_recommendations(api_key, top_keys, language, sort_by, total_count)] *)
Definition build_mixed_recommendations (top_keys : list string) (total_count : Z)
  : result (list (string * json)) :=
  mixed_loop (combine top_keys (budget_counts MIXED_GENRE_RATIO top_keys total_count)).
End Mixed.

(** The source identifier [m.get("id")] of a movie. *)
Definition movie_id (m : json) : json :=
  match m with
  | JObj kvs => match assoc "id" kvs with Some v => v | None => JNull end
  | _ => JNull
  end.

(** The source identifier of an entry [(genre_key, movie)] of the result. *)
Definition source_id (gm : string * json) : json := movie_id (snd gm).

Definition movie (id : Z) (title : string) : json :=
  JObj [("id", JNum id); ("title", JStr title); ("poster_path", JStr "/p.jpg");
        ("vote_average", JNum 7)].

(** A catalog in which every genre and page lists the same movie. *)
Definition one_movie_catalog (gid page : Z) : http_outcome :=
  Response 200 (Some (JObj [("results", JArr [movie 1 "Arrival"])])).

Example mixed_example :
  build_mixed_recommendations one_movie_catalog ["sf_fantasy"; "comedy"] 6
  = Ok [("sf_fantasy", movie 1 "Arrival"); ("comedy", movie 1 "Arrival")].
Proof. reflexivity. Qed.

(* ================================================================= *)
(** ** MoodPick: the tiered content resolver of [src/app.py] *)

Definition GENRE (name : string) : Z :=
  match assoc name
    [("action", 28); ("adventure", 12); ("animation", 16); ("comedy", 35);
     ("crime", 80); ("documentary", 99); ("drama", 18); ("family", 10751);
     ("fantasy", 14); ("history", 36); ("horror", 27); ("music", 10402);
     ("mystery", 9648); ("romance", 10749); ("scifi", 878); ("thriller", 53);
     ("war", 10752)] with
  | Some g => g
  | None => 0
  end.

Definition MOOD_TO_GENRES_WEIGHTED : list (string * (list Z * list Z)) := [
  ("피곤함", (map GENRE ["comedy"; "animation"; "family"], map GENRE ["fantasy"; "music"; "drama"]));
  ("우울함", (map GENRE ["drama"; "music"], map GENRE ["comedy"; "romance"; "mystery"]));
  ("설렘", (map GENRE ["romance"; "comedy"; "fantasy"], map GENRE ["drama"; "adventure"]));
  ("무기력", (map GENRE ["adventure"; "action"; "comedy"], map GENRE ["thriller"; "fantasy"; "crime"]))
].

Definition VIBE_GENRE_BOOST : list (string * list Z) := [
  ("혼자", map GENRE ["mystery"; "drama"]);
  ("친구와", map GENRE ["comedy"; "adventure"]);
  ("데이트", map GENRE ["romance"; "comedy"]);
  ("집에 있음", map GENRE ["animation"; "family"; "documentary"])
].

Definition WEATHER_GENRE_BOOST : list (string * list Z) := [
  ("맑음", map GENRE ["adventure"; "comedy"]);
  ("비", map GENRE ["drama"; "mystery"]);
  ("흐림", map GENRE ["fantasy"; "thriller"])
].

(** Order-preserving removal of repeated genre ids, with a [seen] set. *)
Fixpoint dedup_ids (l : list Z) (seen : list Z) : list Z :=
  match l with
  | [] => []
  | g :: l' => if existsb (Z.eqb g) seen then dedup_ids l' seen
               else g :: dedup_ids l' (g :: seen)
  end.

(** [build_weighted_genre_lists(mood, vibe, weather)] *)
Definition build_weighted_genre_lists (mood vibe weather : string) : list Z * list Z :=
  let '(base_primary, base_secondary) :=
    match assoc mood MOOD_TO_GENRES_WEIGHTED with
    | Some p => p
    | None => ([GENRE "comedy"; GENRE "drama"], [GENRE "romance"])
    end in
  let boosts :=
    ((match assoc vibe VIBE_GENRE_BOOST with Some l => l | None => [] end)
     ++ (match assoc weather WEATHER_GENRE_BOOST with Some l => l | None => [] end))%list in
  (dedup_ids (base_primary ++ boosts)%list [],
   dedup_ids (base_secondary ++ base_primary ++ boosts)%list []).

(** A request of MoodPick to the catalog (the [api_key] is fixed). *)
Inductive mp_request : Type :=
| MPDiscover (media : string) (genres : list Z) (language region : string)
             (vote_count_gte page : Z)
| MPSearch (query language : string).

(** The dict built for each catalog result. [poster_url] is
    [TMDB_IMG + poster_path] when the path is truthy; it is recorded here
    by the path value. *)
Record mp_item : Type := {
  media_type : string;
  title : json;
  overview : json;
  poster_url : option json;
  mp_id : json
}.

Definition mk_item (media : string) (item : json) (poster_field2 : option string)
  : result mp_item :=
  t1 <- py_get item "title" JNull ;;
  t2 <- py_get item "name" JNull ;;
  ov <- py_get item "overview" JNull ;;
  pp1 <- py_get item "poster_path" JNull ;;
  pp <- (match poster_field2 with
         | Some f => pp2 <- py_get item f JNull ;; Ok (py_or pp1 pp2)
         | None => Ok pp1
         end) ;;
  i <- py_get item "id" JNull ;;
  Ok {| media_type := media;
        title := py_or t1 (py_or t2 (JStr "Untitled"));
        overview := py_or ov (JStr "");
        poster_url := if truthy pp then Some pp else None;
        mp_id := i |}.

(** [data.get("results") or []], iterated. *)
Definition results_of (data : json) : result (list json) :=
  res <- py_get data "results" JNull ;; py_iter (py_or res (JArr [])).

Fixpoint discover_items (media : string) (xs : list json) : result (list mp_item) :=
  match xs with
  | [] => Ok []
  | x :: xs' => it <- mk_item media x None ;; rest <- discover_items media xs' ;; Ok (it :: rest)
  end.

Fixpoint search_items (xs : list json) : result (list mp_item) :=
  match xs with
  | [] => Ok []
  | x :: xs' =>
      mt <- py_get x "media_type" JNull ;;
      match mt with
      | JStr m =>
          if String.eqb m "movie" || String.eqb m "tv"
          then it <- mk_item m x (Some "profile_path") ;;
               rest <- search_items xs' ;; Ok (it :: rest)
          else search_items xs'
      | _ => search_items xs'
      end
  end.

Section MoodPickCatalog.
Variable fetch : mp_request -> http_outcome.

(** [tmdb_discover(api_key, media, genres, language, region, vote_count_gte, page)]:
    the request, [raise_for_status] and [r.json()] sit inside
    [try ... except Exception: return []]; the rest is outside. *)
Definition tmdb_discover (media : string) (genres : list Z) (language region : string)
    (vote_count_gte page : Z) : result (list mp_item) :=
  match http_json (fetch (MPDiscover media genres language region vote_count_gte page)) with
  | Err _ => Ok []
  | Ok data => xs <- results_of data ;; discover_items media xs
  end.

(** [tmdb_search_multi(api_key, query, language)] *)
Definition tmdb_search_multi (query language : string) : result (list mp_item) :=
  match http_json (fetch (MPSearch query language)) with
  | Err _ => Ok []
  | Ok data => xs <- results_of data ;; search_items xs
  end.

(** [for media in media_list: collected += tmdb_discover(...)] *)
Fixpoint discover_all (medias : list string) (genres : list Z) (language region : string)
    (vote_count_gte : Z) : result (list mp_item) :=
  match medias with
  | [] => Ok []
  | m :: ms =>
      a <- tmdb_discover m genres language region vote_count_gte 1 ;;
      b <- discover_all ms genres language region vote_count_gte ;;
      Ok (a ++ b)%list
  end.
End MoodPickCatalog.

Definition item_key_eq_dec (a b : string * hval) : {a = b} + {a <> b}.
Proof. decide equality; [apply hval_eq_dec | apply string_dec]. Defined.

Fixpoint dedupe_loop (items : list mp_item) (limit : Z) (out : list mp_item)
    (seen : list (string * hval)) : result (list mp_item) :=
  match items with
  | [] => Ok out
  | x :: xs =>
      h <- to_hash (mp_id x) ;;
      let k := (media_type x, h) in
      if existsb (fun y => if item_key_eq_dec k y then true else false) seen
      then dedupe_loop xs limit out seen
      else let out' := (out ++ [x])%list in
           if limit <=? Z.of_nat (List.length out') then Ok out'
           else dedupe_loop xs limit out' (k :: seen)
  end.

(** [dedupe_items(items, limit)] *)
Definition dedupe_items (items : list mp_item) (limit : Z) : result (list mp_item) :=
  dedupe_loop items limit [] [].

Definition media_list (content_mode : string) : list string :=
  if String.eqb content_mode "both" then ["movie"; "tv"] else [content_mode].

Section Resolver.
Variable fetch : mp_request -> http_outcome.

(** [tmdb_get_recommendations_weighted(api_key, content_mode, mood, vibe,
    weather, fallback_query, language, region, vote_count_gte, n_items,
    use_search_fallback)] *)
Definition tmdb_get_recommendations_weighted (content_mode mood vibe weather
    fallback_query language region : string) (vote_count_gte n_items : Z)
    (use_search_fallback : bool) : result (list mp_item) :=
  let '(primary, secondary) := build_weighted_genre_lists mood vibe weather in
  let medias := media_list content_mode in
  c0 <- discover_all fetch medias primary language region vote_count_gte ;;
  collected <- dedupe_items c0 n_items ;;
  if n_items <=? Z.of_nat (List.length collected) then Ok collected else
  more <- discover_all fetch medias secondary language region (Z.max 0 (vote_count_gte - 50)) ;;
  collected2 <- dedupe_items (collected ++ more)%list n_items ;;
  if n_items <=? Z.of_nat (List.length collected2) then Ok collected2 else
  if use_search_fallback then
    s1 <- tmdb_search_multi fetch fallback_query language ;;
    searched <- (if negb (String.eqb language "en-US")
                 then s2 <- tmdb_search_multi fetch fallback_query "en-US" ;; Ok (s1 ++ s2)%list
                 else Ok s1) ;;
    dedupe_items (collected2 ++ searched)%list n_items
  else Ok collected2.
End Resolver.

Definition mp_result (id : Z) : json :=
  JObj [("id", JNum id); ("title", JStr "Paddington"); ("poster_path", JNull)].

(** A catalog whose discover endpoint always lists the same two items. *)
Definition two_item_catalog (r : mp_request) : http_outcome :=
  Response 200 (Some (JObj [("results", JArr [mp_result 1; mp_result 2])])).

Example resolver_example :
  option_map (@List.length mp_item)
    (match tmdb_get_recommendations_weighted two_item_catalog "movie" "피곤함" "혼자" "비"
             "cozy" "ko-KR" "KR" 150 0 true with Ok l => Some l | Err _ => None end)
  = Some 1%nat.
Proof. reflexivity. Qed.

(* ================================================================= *)
(** * Theorems *)

(* ----------------------------------------------------------------- *)
(** ** Budgets *)

Lemma pad_ratios_length (ratios : list Q) (n : nat) :
  List.length (pad_ratios ratios n) = n.
Proof.
  unfold pad_ratios. rewrite length_firstn, length_app, repeat_length. lia.
Qed.

Lemma rounded_counts_length (N : Z) (rs : list Q) :
  List.length (rounded_counts N rs) = List.length rs.
Proof. unfold rounded_counts. apply length_map. Qed.

(** C3: whenever the Winner Set is non-empty, the per-category budgets
    (rounded shares, with the rounding difference folded into the first
    budget) sum to exactly the requested total [N], for any ratio list. *)
Theorem budget_counts_conserve (ratios : list Q) (top_keys : list string) (N : Z)
  (Hne : top_keys <> []) :
  sumZ (budget_counts ratios top_keys N) = N.
Proof.
  unfold budget_counts.
  destruct (rounded_counts N (pad_ratios ratios (List.length top_keys))) as [|c cs] eqn:E.
  - exfalso. apply Hne.
    pose proof (rounded_counts_length N (pad_ratios ratios (List.length top_keys))) as L.
    rewrite E, pad_ratios_length in L. destruct top_keys; [reflexivity | discriminate].
  - simpl. lia.
Qed.

Lemma budget_counts_conserve_witness :
  ["sf_fantasy"; "comedy"] <> [] /\
  sumZ (budget_counts MIXED_GENRE_RATIO ["sf_fantasy"; "comedy"] 7) = 7.
Proof.
  split; [discriminate |].
  apply (budget_counts_conserve MIXED_GENRE_RATIO ["sf_fantasy"; "comedy"] 7).
  discriminate.
Defined.

(** The rounded shares before the correction. *)
Definition rounded_shares (ratios : list Q) (top_keys : list string) (N : Z) : list Z :=
  rounded_counts N (pad_ratios ratios (List.length top_keys)).

(** C2 (as stated, refuted): with the ratio [[0.5, 0.5]], two winners and
    [N = 3], both shares round to 2 (sum 4 > 3), and the excess is taken
    from the primary budget, which drops to 1, while the second budget
    keeps its rounded value 2. *)
Lemma budget_excess_from_primary_cex :
  ~ (forall (ratios : list Q) (top_keys : list string) (N : Z),
       N < sumZ (rounded_shares ratios top_keys N) ->
       nth 0 (budget_counts ratios top_keys N) 0 = nth 0 (rounded_shares ratios top_keys N) 0).
Proof.
  intro H.
  specialize (H [1 # 2; 1 # 2] ["sf_fantasy"; "comedy"] 3).
  vm_compute in H. specialize (H eq_refl). discriminate H.
Qed.

(** C2 (amended): the rounding difference, positive or negative, is
    applied to the primary (first) budget only: when the rounded shares
    exceed [N], the primary budget loses the whole excess and every other
    budget keeps its rounded share. *)
Theorem budget_difference_on_primary (ratios : list Q) (top_keys : list string) (N : Z)
  (Hne : top_keys <> []) :
  nth 0 (budget_counts ratios top_keys N) 0
    = nth 0 (rounded_shares ratios top_keys N) 0
      - (sumZ (rounded_shares ratios top_keys N) - N) /\
  (forall i, (1 <= i)%nat ->
     nth i (budget_counts ratios top_keys N) 0 = nth i (rounded_shares ratios top_keys N) 0).
Proof.
  unfold budget_counts, rounded_shares.
  destruct (rounded_counts N (pad_ratios ratios (List.length top_keys))) as [|c cs] eqn:E.
  - exfalso. apply Hne.
    pose proof (rounded_counts_length N (pad_ratios ratios (List.length top_keys))) as L.
    rewrite E, pad_ratios_length in L. destruct top_keys; [reflexivity | discriminate].
  - split.
    + simpl. lia.
    + intros [|i] Hi; [lia | reflexivity].
Qed.

Lemma budget_difference_on_primary_witness :
  ["sf_fantasy"; "comedy"] <> [] /\
  nth 0 (budget_counts [1 # 2; 1 # 2] ["sf_fantasy"; "comedy"] 3) 0 = 1 /\
  nth 1 (budget_counts [1 # 2; 1 # 2] ["sf_fantasy"; "comedy"] 3) 0 = 2.
Proof.
  assert (Hne : ["sf_fantasy"; "comedy"] <> []) by discriminate.
  destruct (budget_difference_on_primary [1 # 2; 1 # 2] ["sf_fantasy"; "comedy"] 3 Hne)
    as [H0 H1].
  split; [exact Hne | split].
  - rewrite H0. vm_compute. reflexivity.
  - rewrite (H1 1%nat (le_n 1)). vm_compute. reflexivity.
Defined.

(* ----------------------------------------------------------------- *)
(** ** Scoring *)

Lemma weight_pos (qid : string) : 0 < weight qid.
Proof.
  unfold weight, QUESTION_WEIGHTS. simpl.
  repeat match goal with |- context [String.eqb ?a ?b] => destruct (String.eqb a b) end;
  lia.
Qed.

(** The total weight of a list of answers. *)
Definition answer_weight (answers : list (string * string)) : Z :=
  sumZ (map (fun qa => weight (fst qa)) answers).

Lemma add_score_ok (k : string) (w : Z) (scores : list (string * Z)) :
  In k (map fst scores) ->
  exists s',
    add_score k w scores = Ok s' /\
    map fst s' = map fst scores /\
    sumZ (map snd s') = sumZ (map snd scores) + w /\
    (forall g, assoc g s' =
       option_map (fun v => if String.eqb k g then v + w else v) (assoc g scores)) /\
    (Forall (fun kv => 0 <= snd kv) scores -> 0 <= w -> Forall (fun kv => 0 <= snd kv) s').
Proof.
  induction scores as [|[k' v] rest IH]; simpl; intros Hin; [contradiction|].
  destruct (String.eqb k k') eqn:Ekk'.
  - apply String.eqb_eq in Ekk'. subst k'.
    exists ((k, v + w) :: rest). simpl. repeat split; [lia | |].
    + intros g. destruct (String.eqb g k) eqn:Eg.
      * apply String.eqb_eq in Eg. subst g. rewrite String.eqb_refl. reflexivity.
      * rewrite String.eqb_sym in Eg.
        destruct (assoc g rest); simpl; rewrite ?Eg; reflexivity.
    + intros Hf Hw. inversion Hf; subst. constructor; simpl in *; [lia | assumption].
  - destruct Hin as [Heq | Hin].
    + subst k'. rewrite String.eqb_refl in Ekk'. discriminate.
    + destruct (IH Hin) as (s' & Hs & Hk & Hsum & Hg & Hnn).
      exists ((k', v) :: s'). rewrite Hs. simpl. repeat split.
      * rewrite Hk. reflexivity.
      * lia.
      * intros g. destruct (String.eqb g k') eqn:Eg.
        -- apply String.eqb_eq in Eg. subst g. rewrite Ekk'. reflexivity.
        -- apply Hg.
      * intros Hf Hw. inversion Hf; subst. constructor; auto.
Qed.

Lemma add_score_missing (k : string) (w : Z) (scores : list (string * Z)) :
  ~ In k (map fst scores) -> add_score k w scores = Err (KeyError k).
Proof.
  induction scores as [|[k' v] rest IH]; simpl; intros Hn; [reflexivity|].
  destruct (String.eqb k k') eqn:E.
  - apply String.eqb_eq in E. subst. exfalso. apply Hn. left. reflexivity.
  - rewrite IH; [reflexivity | tauto].
Qed.

(** The weight given to category [g] by a list of answers. *)
Definition weight_for (g : string) (answers : list (string * string)) : Z :=
  answer_weight (filter (fun qa => String.eqb (snd qa) g) answers).

Lemma score_loop_ok (answers : list (string * string)) :
  forall scores,
  (forall q g, In (q, g) answers -> In g (map fst scores)) ->
  exists s',
    score_loop answers scores = Ok s' /\
    map fst s' = map fst scores /\
    sumZ (map snd s') = sumZ (map snd scores) + answer_weight answers /\
    (forall g, assoc g s' = option_map (fun v => v + weight_for g answers) (assoc g scores)) /\
    (Forall (fun kv => 0 <= snd kv) scores -> Forall (fun kv => 0 <= snd kv) s').
Proof.
  induction answers as [|[q g0] rest IH]; intros scores Hin.
  - exists scores. simpl. split; [reflexivity | split; [reflexivity | split]].
    + unfold answer_weight. simpl. lia.
    + split; [| tauto].
      intros g. destruct (assoc g scores); simpl; [f_equal; unfold weight_for, answer_weight; simpl; lia | reflexivity].
  - simpl.
    destruct (add_score_ok g0 (weight q) scores (Hin q g0 (or_introl eq_refl)))
      as (s1 & Hs1 & Hk1 & Hsum1 & Hg1 & Hnn1).
    rewrite Hs1. simpl.
    assert (Hin' : forall q' g', In (q', g') rest -> In g' (map fst s1)).
    { intros q' g' H. rewrite Hk1. apply (Hin q'). right. exact H. }
    destruct (IH s1 Hin') as (s2 & Hs2 & Hk2 & Hsum2 & Hg2 & Hnn2).
    exists s2. repeat split.
    + exact Hs2.
    + rewrite Hk2. exact Hk1.
    + unfold answer_weight in *. simpl. lia.
    + intros g. rewrite Hg2, Hg1. unfold weight_for, answer_weight. simpl.
      rewrite (String.eqb_sym g0 g).
      destruct (assoc g scores); simpl; [|reflexivity].
      destruct (String.eqb g g0); simpl; f_equal; lia.
    + intros Hf. apply Hnn2. apply Hnn1; [exact Hf |]. pose proof (weight_pos q). lia.
Qed.

Lemma genre_keys_nodup : NoDup genre_keys.
Proof.
  unfold genre_keys, GENRES. simpl.
  repeat constructor; simpl; intuition discriminate.
Qed.

Lemma assoc_zero_table (g : string) :
  In g genre_keys -> assoc g (map (fun k => (k, 0)) genre_keys) = Some 0.
Proof.
  unfold genre_keys, GENRES. simpl. intros H.
  repeat match goal with |- context [String.eqb ?a ?b] => destruct (String.eqb a b) eqn:? end;
  try reflexivity.
  exfalso.
  repeat match goal with E : String.eqb _ _ = false |- _ => apply String.eqb_neq in E end.
  intuition congruence.
Qed.

(** C7: for an Answer Set whose answers are all defined category keys,
    [score_answers] returns a table with exactly one entry per category
    (in [GENRES] order), all entries non-negative, the entries summing to
    the total weight of the answers, and each category scoring exactly
    the weights of the answers that chose it (an answer changes only its
    own category). *)
Theorem score_answers_table (answers : list (string * string))
  (Hdef : forall q g, In (q, g) answers -> In g genre_keys) :
  exists scores,
    score_answers answers = Ok scores /\
    map fst scores = genre_keys /\
    NoDup (map fst scores) /\
    Forall (fun kv => 0 <= snd kv) scores /\
    sumZ (map snd scores) = answer_weight answers /\
    (forall g, In g genre_keys -> assoc g scores = Some (weight_for g answers)).
Proof.
  unfold score_answers.
  assert (Hk0 : map fst (map (fun k => (k, 0)) genre_keys) = genre_keys).
  { rewrite map_map. apply map_id. }
  assert (Hin : forall q g, In (q, g) answers -> In g (map fst (map (fun k => (k, 0)) genre_keys))).
  { intros q g H. rewrite Hk0. eauto. }
  destruct (score_loop_ok answers _ Hin) as (s & Hs & Hk & Hsum & Hg & Hnn).
  exists s. repeat split.
  - exact Hs.
  - rewrite Hk. exact Hk0.
  - rewrite Hk, Hk0. exact genre_keys_nodup.
  - apply Hnn. apply Forall_forall. intros kv Hkv. apply in_map_iff in Hkv.
    destruct Hkv as (k & <- & _). simpl. lia.
  - rewrite Hsum. unfold genre_keys, GENRES. simpl. lia.
  - intros g Hgk. rewrite Hg, assoc_zero_table by exact Hgk. reflexivity.
Qed.

Definition sample_answers : list (string * string) :=
  [("q1", "sf_fantasy"); ("q2", "comedy"); ("q3", "sf_fantasy");
   ("q4", "comedy"); ("q5", "sf_fantasy")].

Lemma score_answers_table_witness :
  (forall q g, In (q, g) sample_answers -> In g genre_keys) /\
  exists scores, score_answers sample_answers = Ok scores /\
    sumZ (map snd scores) = answer_weight sample_answers.
Proof.
  assert (H : forall q g, In (q, g) sample_answers -> In g genre_keys).
  { unfold sample_answers, genre_keys, GENRES. simpl. intros q g Hq.
    repeat destruct Hq as [Hq | Hq]; try (inversion Hq; subst; simpl; tauto). }
  split; [exact H |].
  destruct (score_answers_table sample_answers H) as (s & Hs & _ & _ & _ & Hsum & _).
  exists s. split; assumption.
Defined.

(** C10: an Answer Set with an answer whose value is not a key of
    [GENRES] makes [score_answers] raise [KeyError] (for the first such
    answer); it neither ignores the answer nor defaults its score. *)
Theorem score_answers_key_error (answers : list (string * string))
  (Hbad : exists q g, In (q, g) answers /\ ~ In g genre_keys) :
  exists k, ~ In k genre_keys /\ score_answers answers = Err (KeyError k).
Proof.
  unfold score_answers.
  assert (Hk0 : map fst (map (fun k => (k, 0)) genre_keys) = genre_keys).
  { rewrite map_map. apply map_id. }
  revert Hk0. generalize (map (fun k => (k, 0)) genre_keys).
  induction answers as [|[q g0] rest IH]; intros scores Hk.
  - destruct Hbad as (q & g & [] & _).
  - simpl. destruct (in_dec string_dec g0 genre_keys) as [Hg0 | Hg0].
    + rewrite <- Hk in Hg0.
      destruct (add_score_ok g0 (weight q) scores Hg0) as (s1 & Hs1 & Hk1 & _).
      rewrite Hs1. simpl. apply IH.
      * destruct Hbad as (q' & g' & [Heq | Hin] & Hn).
        -- inversion Heq; subst. rewrite Hk in Hg0. contradiction.
        -- eauto.
      * rewrite Hk1. exact Hk.
    + exists g0. split; [exact Hg0 |].
      rewrite add_score_missing; [reflexivity | rewrite Hk; exact Hg0].
Qed.

Lemma score_answers_key_error_witness :
  (exists q g, In (q, g) [("q1", "horror")] /\ ~ In g genre_keys) /\
  score_answers [("q1", "horror")] = Err (KeyError "horror").
Proof.
  assert (H : exists q g, In (q, g) [("q1", "horror")] /\ ~ In g genre_keys).
  { exists "q1", "horror". split; [left; reflexivity |].
    unfold genre_keys, GENRES. simpl. intuition discriminate. }
  split; [exact H |].
  destruct (score_answers_key_error [("q1", "horror")] H) as (k & _ & Hk).
  rewrite Hk. vm_compute in Hk. inversion Hk. reflexivity.
Defined.

(* ----------------------------------------------------------------- *)
(** ** The stable sort and the selection of winners *)

Section SortFacts.
Context {A : Type} (le : A -> A -> bool).
Hypothesis le_total : forall x y, le x y = false -> le y x = true.
Hypothesis le_trans : forall x y z, le x y = true -> le y z = true -> le x z = true.

Let R (a b : A) : Prop := le a b = true.

Lemma insert_by_perm (x : A) (l : list A) : Permutation (insert_by le x l) (x :: l).
Proof.
  induction l as [|y l IH]; simpl; [reflexivity|].
  destruct (le x y); [reflexivity|].
  rewrite IH. apply perm_swap.
Qed.

Lemma sort_by_perm (l : list A) : Permutation (sort_by le l) l.
Proof.
  induction l as [|x l IH]; simpl; [reflexivity|].
  rewrite insert_by_perm. apply perm_skip. exact IH.
Qed.

Lemma insert_by_sorted (x : A) (l : list A) :
  StronglySorted R l -> StronglySorted R (insert_by le x l).
Proof.
  induction l as [|y l IH]; simpl; intros Hs.
  - repeat constructor.
  - apply StronglySorted_inv in Hs as [Hs Hy].
    destruct (le x y) eqn:Exy.
    + constructor; [constructor; assumption|].
      constructor; [exact Exy|].
      eapply Forall_impl; [|exact Hy]. intros z Hz. eapply le_trans; eassumption.
    + constructor; [apply IH; exact Hs|].
      apply Forall_forall. intros z Hz.
      apply (Permutation_in _ (insert_by_perm x l)) in Hz. destruct Hz as [<- | Hz].
      * apply le_total. exact Exy.
      * rewrite Forall_forall in Hy. apply Hy. exact Hz.
Qed.

Lemma sort_by_sorted (l : list A) : StronglySorted R (sort_by le l).
Proof.
  induction l as [|x l IH]; simpl; [constructor|].
  apply insert_by_sorted. exact IH.
Qed.
End SortFacts.

Lemma strongly_sorted_nth {A} (R : A -> A -> Prop) (l : list A) :
  StronglySorted R l ->
  forall i j a b, (i < j)%nat -> nth_error l i = Some a -> nth_error l j = Some b -> R a b.
Proof.
  induction 1 as [|x l Hs IH Hf]; intros i j a b Hij Hi Hj.
  - destruct i; discriminate.
  - destruct j as [|j]; [lia|]. simpl in Hj.
    destruct i as [|i]; simpl in Hi.
    + inversion Hi; subst. rewrite Forall_forall in Hf. apply Hf.
      eapply nth_error_In. exact Hj.
    + apply (IH i j); [lia | assumption | assumption].
Qed.

Lemma key_le_spec (k1 k2 : Z * Z) :
  key_le k1 k2 = true <-> fst k1 < fst k2 \/ (fst k1 = fst k2 /\ snd k1 <= snd k2).
Proof.
  unfold key_le. rewrite orb_true_iff, andb_true_iff, Z.ltb_lt, Z.eqb_eq, Z.leb_le.
  reflexivity.
Qed.

Lemma keyed_le_total {B} (x y : (Z * Z) * B) :
  keyed_le x y = false -> keyed_le y x = true.
Proof.
  unfold keyed_le. intros H. apply key_le_spec.
  destruct (key_le (fst x) (fst y)) eqn:E; [discriminate|].
  assert (~ (fst (fst x) < fst (fst y) \/
             (fst (fst x) = fst (fst y) /\ snd (fst x) <= snd (fst y)))) as Hn.
  { rewrite <- key_le_spec. congruence. }
  lia.
Qed.

Lemma keyed_le_trans {B} (x y z : (Z * Z) * B) :
  keyed_le x y = true -> keyed_le y z = true -> keyed_le x z = true.
Proof.
  unfold keyed_le. rewrite !key_le_spec. lia.
Qed.

Lemma ordered_scores_perm (scores : list (string * Z)) :
  Permutation (ordered_scores scores) scores.
Proof.
  unfold ordered_scores.
  rewrite (Permutation_map snd (sort_by_perm keyed_le (decorate_scores scores))).
  unfold decorate_scores. rewrite map_map. apply Permutation_refl'. apply map_id.
Qed.

Lemma ordered_scores_sorted (scores : list (string * Z)) :
  StronglySorted (fun a b => key_le (genre_sort_key a) (genre_sort_key b) = true)
    (ordered_scores scores).
Proof.
  unfold ordered_scores.
  assert (Hf : Forall (fun p => fst p = genre_sort_key (snd p))
                 (sort_by keyed_le (decorate_scores scores))).
  { apply Forall_forall. intros p Hp.
    apply (Permutation_in _ (sort_by_perm keyed_le _)) in Hp.
    unfold decorate_scores in Hp. apply in_map_iff in Hp.
    destruct Hp as (kv & <- & _). reflexivity. }
  pose proof (sort_by_sorted keyed_le keyed_le_total keyed_le_trans (decorate_scores scores)) as Hs.
  revert Hf. induction Hs as [|p D Hs IH Hfa]; intros Hf; simpl; constructor.
  - apply IH. inversion Hf; assumption.
  - inversion Hf as [|? ? Hp HD]; subst.
    apply Forall_map. rewrite Forall_forall in Hfa, HD |- *.
    intros q Hq. specialize (Hfa q Hq). unfold keyed_le in Hfa.
    rewrite Hp, (HD q Hq) in Hfa. exact Hfa.
Qed.

(** The position of a winner in the ordered table. *)
Lemma pick_top_genres_nth (scores : list (string * Z)) (top_n j : nat) (k : string) :
  nth_error (pick_top_genres scores top_n) j = Some k <->
  (j < top_n)%nat /\ exists v, nth_error (ordered_scores scores) j = Some (k, v).
Proof.
  unfold pick_top_genres. rewrite nth_error_map, nth_error_firstn.
  destruct (Nat.ltb j top_n) eqn:E.
  - apply Nat.ltb_lt in E.
    destruct (nth_error (ordered_scores scores) j) as [[k' v]|]; simpl; split.
    + intros H. inversion H; subst. split; [exact E | exists v; reflexivity].
    + intros (_ & v' & H). inversion H; subst. reflexivity.
    + discriminate.
    + intros (_ & v' & H). discriminate.
  - apply Nat.ltb_ge in E. simpl. split; [discriminate | intros [H _]; lia].
Qed.

Lemma assoc_nodup_unique {V} (l : list (string * V)) (k : string) (a b : V) :
  NoDup (map fst l) -> In (k, a) l -> In (k, b) l -> a = b.
Proof.
  induction l as [|[k' c] l IH]; simpl; intros Hnd Ha Hb; [contradiction|].
  inversion Hnd as [|? ? Hn Hnd']; subst.
  destruct Ha as [Ha | Ha]; destruct Hb as [Hb | Hb].
  - inversion Ha; inversion Hb; subst. reflexivity.
  - inversion Ha; subst. exfalso. apply Hn. apply (in_map fst _ (k, b)). exact Hb.
  - inversion Hb; subst. exfalso. apply Hn. apply (in_map fst _ (k, a)). exact Ha.
  - apply IH; assumption.
Qed.

(** An entry of the table that ranks strictly before a winner is a
    winner too, at an earlier position. *)
Lemma pick_top_genres_before (scores : list (string * Z)) (top_n j : nat)
    (k k' : string) (v v' : Z) :
  NoDup (map fst scores) ->
  In (k, v) scores -> In (k', v') scores ->
  key_le (genre_sort_key (k, v)) (genre_sort_key (k', v')) = false ->
  nth_error (pick_top_genres scores top_n) j = Some k ->
  exists i, (i < j)%nat /\ nth_error (pick_top_genres scores top_n) i = Some k'.
Proof.
  intros Hnd Hk Hk' Hlt Hj.
  apply pick_top_genres_nth in Hj as [Hjn [w Hw]].
  assert (Hw' : w = v).
  { apply (assoc_nodup_unique scores k); [exact Hnd | | exact Hk].
    apply (Permutation_in _ (ordered_scores_perm scores)). eapply nth_error_In. exact Hw. }
  subst w.
  apply (Permutation_in _ (Permutation_sym (ordered_scores_perm scores))) in Hk'.
  apply In_nth_error in Hk' as [i Hi].
  destruct (lt_eq_lt_dec i j) as [[Hij | Hij] | Hij].
  - exists i. split; [exact Hij|]. apply pick_top_genres_nth.
    split; [lia | exists v'; exact Hi].
  - subst i. rewrite Hw in Hi. inversion Hi; subst.
    exfalso. rewrite <- not_true_iff_false in Hlt. apply Hlt.
    apply key_le_spec. right. lia.
  - exfalso.
    pose proof (strongly_sorted_nth _ _ (ordered_scores_sorted scores) j i _ _ Hij Hw Hi) as H.
    change (key_le (genre_sort_key (k, v)) (genre_sort_key (k', v')) = true) in H.
    rewrite Hlt in H. discriminate.
Qed.

(** C5: in a score table (a dict: its keys are distinct), of two
    categories with the same score the one with the lower tie-break rank
    is placed earlier in the Winner Set: whenever the other one is a
    winner, so is it, at an earlier position. This holds for every order
    of the entries of the table. *)
Theorem pick_top_genres_tie_break (scores : list (string * Z)) (top_n : nat)
  (k1 k2 : string) (s : Z) (j : nat)
  (Hnd : NoDup (map fst scores))
  (H1 : In (k1, s) scores) (H2 : In (k2, s) scores)
  (Hrank : tie_rank k1 < tie_rank k2)
  (Hj : nth_error (pick_top_genres scores top_n) j = Some k2) :
  exists i, (i < j)%nat /\ nth_error (pick_top_genres scores top_n) i = Some k1.
Proof.
  apply (pick_top_genres_before scores top_n j k2 k1 s s Hnd H2 H1); [|exact Hj].
  apply not_true_iff_false. rewrite key_le_spec. simpl. lia.
Qed.

Definition tie_scores : list (string * Z) :=
  [("romance_drama", 1); ("action_adventure", 2); ("sf_fantasy", 2); ("comedy", 2)].

Lemma pick_top_genres_tie_break_witness :
  nth_error (pick_top_genres tie_scores 2) 1 = Some "action_adventure" /\
  exists i, (i < 1)%nat /\ nth_error (pick_top_genres tie_scores 2) i = Some "sf_fantasy".
Proof.
  assert (Hj : nth_error (pick_top_genres tie_scores 2) 1 = Some "action_adventure")
    by reflexivity.
  split; [exact Hj|].
  apply (pick_top_genres_tie_break tie_scores 2 "sf_fantasy" "action_adventure" 2 1).
  - unfold tie_scores. simpl. repeat constructor; simpl; intuition discriminate.
  - unfold tie_scores. simpl. tauto.
  - unfold tie_scores. simpl. tauto.
  - reflexivity.
  - exact Hj.
Defined.

(** All answers choose [sf_fantasy]. *)
Definition all_sf_answers : list (string * string) :=
  [("q1", "sf_fantasy"); ("q2", "sf_fantasy"); ("q3", "sf_fantasy");
   ("q4", "sf_fantasy"); ("q5", "sf_fantasy")].

(** C4 (as stated, refuted): when every answer picks [sf_fantasy], the
    Winner Set for [K = 2] is [sf_fantasy; action_adventure] although
    [action_adventure] scores 0 and [sf_fantasy] scores 7. *)
Lemma winner_zero_score_cex :
  exists scores,
    score_answers all_sf_answers = Ok scores /\
    pick_top_genres scores MIXED_GENRE_TOP_N = ["sf_fantasy"; "action_adventure"] /\
    assoc "action_adventure" scores = Some 0 /\
    assoc "sf_fantasy" scores = Some 7.
Proof.
  eexists. split; [reflexivity|]. vm_compute. repeat split.
Qed.

(** C4 (amended): the Winner Set has [min K (number of categories)]
    entries, so at most [K]; it holds the first categories of the
    (score descending, tie-break rank ascending) order, so a category of
    higher score than a winner is a winner too: a zero-score category is
    a winner only when fewer than [K] categories have a positive score. *)
Theorem pick_top_genres_prefix (scores : list (string * Z)) (top_n : nat)
  (Hnd : NoDup (map fst scores)) :
  List.length (pick_top_genres scores top_n) = Nat.min top_n (List.length scores) /\
  (forall k v k' v',
     In (k, v) scores -> In (k', v') scores -> v < v' ->
     In k (pick_top_genres scores top_n) -> In k' (pick_top_genres scores top_n)).
Proof.
  split.
  - unfold pick_top_genres. rewrite length_map, length_firstn.
    rewrite (Permutation_length (ordered_scores_perm scores)). reflexivity.
  - intros k v k' v' Hk Hk' Hlt Hin.
    apply In_nth_error in Hin as [j Hj].
    destruct (pick_top_genres_before scores top_n j k k' v v' Hnd Hk Hk') as (i & _ & Hi).
    + apply not_true_iff_false. rewrite key_le_spec. simpl. lia.
    + exact Hj.
    + eapply nth_error_In. exact Hi.
Qed.

Lemma pick_top_genres_prefix_witness :
  NoDup (map fst tie_scores) /\
  List.length (pick_top_genres tie_scores 2) = 2%nat.
Proof.
  assert (Hnd : NoDup (map fst tie_scores)).
  { unfold tie_scores. simpl. repeat constructor; simpl; intuition discriminate. }
  split; [exact Hnd|].
  rewrite (proj1 (pick_top_genres_prefix tie_scores 2 Hnd)). reflexivity.
Defined.

(** The Score Table of [score_answers] when no answer carries weight. *)
Definition zero_table : list (string * Z) := map (fun k => (k, 0)) genre_keys.

Definition genre_label (k : string) : string :=
  match assoc k GENRES with Some g => label g | None => "" end.

(** C6: when every category scores 0, the Winner Set is the first [K]
    categories of the tie-break order (so it has [min K 4] entries), and
    the rationale reports 0% for every winner (the total is floored at 1). *)
Theorem all_zero_selection (top_n : nat) :
  pick_top_genres zero_table top_n = firstn top_n TIE_BREAKER_ORDER /\
  List.length (pick_top_genres zero_table top_n) = Nat.min top_n 4 /\
  build_result_reason (pick_top_genres zero_table top_n) zero_table
    = Ok (join " / " (map (fun k => genre_label k ++ " 0%") (firstn top_n TIE_BREAKER_ORDER))).
Proof.
  assert (Ho : ordered_scores zero_table =
               [("sf_fantasy", 0); ("action_adventure", 0); ("romance_drama", 0); ("comedy", 0)])
    by reflexivity.
  unfold pick_top_genres. rewrite Ho.
  destruct top_n as [|[|[|[|n]]]]; simpl firstn; rewrite ?firstn_nil;
    [repeat split .. |].
  replace (Nat.min (S (S (S (S n)))) 4) with 4%nat by lia.
  repeat split.
Qed.

(* ----------------------------------------------------------------- *)
(** ** Uniqueness of the mixed recommendations *)

(** The hashed identifier of a movie, as [seen] compares it. *)
Definition hashed_id (m : json) : result hval := to_hash (movie_id m).

(** [results] and [seen] of [fetch_movies_for_profile] move together:
    [seen] holds the identifiers of [results], newest first. *)
Definition ids_ok (results : list json) (seen : list hval) : Prop :=
  map hashed_id results = map Ok (rev seen) /\ NoDup seen.

Lemma nodup_map_ok (l : list hval) : NoDup l -> NoDup (map (@Ok hval) l).
Proof.
  induction 1 as [|x l Hx Hl IH]; simpl; constructor; [|exact IH].
  intros Hin. apply in_map_iff in Hin as (y & Hy & Hin). inversion Hy; subst. contradiction.
Qed.

Lemma mem_h_false (h : hval) (seen : list hval) : mem_h h seen = false -> ~ In h seen.
Proof.
  unfold mem_h. intros H Hin.
  assert (existsb (fun y => if hval_eq_dec h y then true else false) seen = true) as Ht.
  { apply existsb_exists. exists h. split; [exact Hin|].
    destruct (hval_eq_dec h h); [reflexivity | contradiction]. }
  congruence.
Qed.

Lemma py_get_id (m mid : json) : py_get m "id" JNull = Ok mid -> movie_id m = mid.
Proof. destruct m; simpl; intros H; inversion H; reflexivity. Qed.

Lemma chunk_loop_ids (ms : list json) :
  forall results seen r,
  ids_ok results seen -> chunk_loop ms results seen = Ok r -> ids_ok (fst r) (snd r).
Proof.
  induction ms as [|m ms IH]; simpl; intros results seen r Hinv Hr.
  - inversion Hr; subst. exact Hinv.
  - destruct (py_get m "id" JNull) as [mid|e] eqn:Eg; simpl in Hr; [|discriminate].
    destruct (negb (truthy mid)); [eapply IH; eassumption|].
    destruct (to_hash mid) as [h|e] eqn:Eh; simpl in Hr; [|discriminate].
    destruct (mem_h h seen) eqn:Em; [eapply IH; eassumption|].
    apply (IH (results ++ [m])%list (h :: seen) r); [split | exact Hr].
    + destruct Hinv as [Hmap _]. rewrite map_app, Hmap. simpl.
      unfold hashed_id. rewrite (py_get_id _ _ Eg), Eh, map_app. reflexivity.
    + constructor; [apply mem_h_false; exact Em | apply Hinv].
Qed.

Section FetchIds.
Variable fetch : Z -> Z -> http_outcome.

Lemma page_loop_ids (gid need : Z) (pages : list Z) :
  forall results seen r,
  ids_ok results seen -> page_loop fetch gid need pages results seen = Ok r ->
  ids_ok (fst r) (snd r).
Proof.
  induction pages as [|p ps IH]; cbn [page_loop]; intros results seen r Hinv Hr.
  - inversion Hr; subst. exact Hinv.
  - destruct (tmdb_discover_movie fetch gid p) as [chunk|e]; cbn [bind] in Hr; [|discriminate].
    destruct (py_iter chunk) as [ms|e]; cbn [bind] in Hr; [|discriminate].
    destruct (chunk_loop ms results seen) as [st|e] eqn:Ec; cbn [bind] in Hr; [|discriminate].
    pose proof (chunk_loop_ids ms results seen st Hinv Ec) as Hst.
    destruct (enough need (fst st)).
    + inversion Hr; subst. exact Hst.
    + exact (IH _ _ _ Hst Hr).
Qed.

Lemma gid_loop_ids (need : Z) (gids : list Z) :
  forall results seen r,
  ids_ok results seen -> gid_loop fetch need gids results seen = Ok r ->
  ids_ok (fst r) (snd r).
Proof.
  induction gids as [|g gs IH]; cbn [gid_loop]; intros results seen r Hinv Hr.
  - inversion Hr; subst. exact Hinv.
  - destruct (page_loop fetch g need [1; 2] results seen) as [st|e] eqn:Ep;
      cbn [bind] in Hr; [|discriminate].
    pose proof (page_loop_ids g need [1; 2] results seen st Hinv Ep) as Hst.
    destruct (enough need (fst st)).
    + inversion Hr; subst. exact Hst.
    + exact (IH _ _ _ Hst Hr).
Qed.

(** The pool fetched for one profile has pairwise distinct identifiers. *)
Lemma fetch_movies_unique (profile : GenreProfile) (need : Z) (pool : list json) :
  fetch_movies_for_profile fetch profile need = Ok pool -> NoDup (map hashed_id pool).
Proof.
  unfold fetch_movies_for_profile. intros H.
  destruct (gid_loop fetch need (tmdb_ids profile) [] []) as [st|e] eqn:Eg;
    simpl in H; [|discriminate].
  inversion H; subst.
  destruct (gid_loop_ids need _ [] [] st (conj eq_refl (NoDup_nil _)) Eg) as [Hmap Hnd].
  rewrite Hmap. apply nodup_map_ok. apply NoDup_rev. exact Hnd.
Qed.
End FetchIds.

(** [l1] keeps some elements of [l2], in order. *)
Inductive subseq {A : Type} : list A -> list A -> Prop :=
| subseq_nil : subseq [] []
| subseq_skip x l1 l2 : subseq l1 l2 -> subseq l1 (x :: l2)
| subseq_take x l1 l2 : subseq l1 l2 -> subseq (x :: l1) (x :: l2).

Lemma subseq_nil_l {A} (l : list A) : subseq [] l.
Proof. induction l; constructor; assumption. Qed.

Lemma subseq_in {A} (l1 l2 : list A) x : subseq l1 l2 -> In x l1 -> In x l2.
Proof. induction 1; simpl; intuition. Qed.

Lemma subseq_nodup_map {A B} (f : A -> B) (l1 l2 : list A) :
  subseq l1 l2 -> NoDup (map f l2) -> NoDup (map f l1).
Proof.
  induction 1 as [|x l1 l2 Hs IH|x l1 l2 Hs IH]; simpl; intros Hnd.
  - constructor.
  - inversion Hnd; auto.
  - inversion Hnd as [|? ? Hn Hnd']; subst. constructor; [|auto].
    intros Hin. apply Hn. apply in_map_iff in Hin as (y & Hy & Hin).
    rewrite <- Hy. apply in_map. eapply subseq_in; eassumption.
Qed.

Lemma unique_loop_subseq (ms : list json) (limit : Z) :
  forall out seen r, unique_loop ms limit out seen = Ok r ->
  exists sub, r = (out ++ sub)%list /\ subseq sub ms.
Proof.
  induction ms as [|m ms IH]; simpl; intros out seen r Hr.
  - inversion Hr; subst. exists []. rewrite app_nil_r. split; [reflexivity | constructor].
  - destruct (movie_title m) as [t|e]; simpl in Hr; [|discriminate].
    destruct (String.eqb t "" || existsb (String.eqb t) seen).
    + destruct (IH _ _ _ Hr) as (sub & -> & Hs). exists sub. split; [reflexivity|].
      apply subseq_skip. exact Hs.
    + destruct (limit <=? Z.of_nat (List.length (out ++ [m])%list)).
      * inversion Hr; subst. exists [m]. split; [reflexivity|].
        apply subseq_take. apply subseq_nil_l.
      * destruct (IH _ _ _ Hr) as (sub & -> & Hs). exists (m :: sub).
        split; [rewrite <- app_assoc; reflexivity|]. apply subseq_take. exact Hs.
Qed.

Lemma decorate_movies_snd (ms : list json) (d : list ((Z * Z) * json)) :
  decorate_movies ms = Ok d -> map snd d = ms.
Proof.
  revert d. induction ms as [|m ms IH]; simpl; intros d H.
  - inversion H; reflexivity.
  - destruct (poster_key m) as [k|e]; simpl in H; [|discriminate].
    destruct (decorate_movies ms) as [d'|e]; simpl in H; [|discriminate].
    inversion H; subst. simpl. f_equal. apply IH. reflexivity.
Qed.

(** The picks of one category are among its pool and keep its distinct
    identifiers. *)
Lemma pick_top_unique_nodup (pool : list json) (limit : Z) (picks : list json) :
  NoDup (map hashed_id pool) ->
  pick_top_unique pool limit true = Ok picks -> NoDup (map hashed_id picks).
Proof.
  unfold pick_top_unique. intros Hnd H.
  destruct (decorate_movies pool) as [d|e] eqn:Ed; simpl in H; [|discriminate].
  destruct (unique_loop_subseq _ _ _ _ _ H) as (sub & -> & Hs). simpl.
  apply (subseq_nodup_map _ _ _ Hs).
  apply (Permutation_NoDup (l := map hashed_id pool)); [|exact Hnd].
  rewrite <- (decorate_movies_snd pool d Ed), !map_map.
  apply Permutation_sym, Permutation_map, sort_by_perm.
Qed.

Lemma filter_none {A} (f : A -> bool) (l : list A) :
  (forall x, In x l -> f x = false) -> filter f l = [].
Proof.
  induction l as [|x l IH]; simpl; intros H; [reflexivity|].
  rewrite (H x (or_introl eq_refl)). apply IH. intros y Hy. apply H. right. exact Hy.
Qed.

Lemma filter_all {A} (f : A -> bool) (l : list A) :
  (forall x, In x l -> f x = true) -> filter f l = l.
Proof.
  induction l as [|x l IH]; simpl; intros H; [reflexivity|].
  rewrite (H x (or_introl eq_refl)). f_equal. apply IH. intros y Hy. apply H. right. exact Hy.
Qed.

Lemma nodup_map_fst_combine {A B} (l1 : list A) (l2 : list B) :
  NoDup l1 -> NoDup (map fst (combine l1 l2)).
Proof.
  revert l2. induction l1 as [|x l1 IH]; intros [|y l2] Hnd; simpl; try constructor.
  - inversion Hnd as [|? ? Hn Hnd']; subst.
    intros Hin. apply in_map_iff in Hin as ([x' y'] & Hx & Hin). simpl in Hx. subst x'.
    apply Hn. eapply in_combine_l. exact Hin.
  - apply IH. inversion Hnd; assumption.
Qed.

Section MixedIds.
Variable fetch : Z -> Z -> http_outcome.

Lemma mixed_loop_keys (pairs : list (string * Z)) (mixed : list (string * json)) :
  mixed_loop fetch pairs = Ok mixed -> forall gm, In gm mixed -> In (fst gm) (map fst pairs).
Proof.
  revert mixed. induction pairs as [|[gkey n] rest IH]; cbn [mixed_loop]; intros mixed H gm Hin.
  - inversion H; subst. contradiction.
  - simpl. destruct (n <=? 0).
    + right. eapply IH; eassumption.
    + destruct (genre gkey) as [prof|e]; cbn [bind] in H; [|discriminate].
      destruct (fetch_movies_for_profile fetch prof n) as [pool|e]; cbn [bind] in H; [|discriminate].
      destruct (pick_top_unique pool n true) as [picks|e]; cbn [bind] in H; [|discriminate].
      destruct (mixed_loop fetch rest) as [tail|e] eqn:Et; cbn [bind] in H; [|discriminate].
      inversion H; subst. apply in_app_or in Hin as [Hin | Hin].
      * left. apply in_map_iff in Hin as (m & <- & _). reflexivity.
      * right. eapply IH; [reflexivity | exact Hin].
Qed.

Lemma mixed_loop_unique (pairs : list (string * Z)) (mixed : list (string * json)) (g : string) :
  NoDup (map fst pairs) -> mixed_loop fetch pairs = Ok mixed ->
  NoDup (map (fun gm => to_hash (source_id gm)) (filter (fun gm => String.eqb (fst gm) g) mixed)).
Proof.
  revert mixed. induction pairs as [|[gkey n] rest IH]; cbn [mixed_loop]; intros mixed Hnd H.
  - inversion H; subst. constructor.
  - inversion Hnd as [|? ? Hn Hnd']; subst.
    destruct (n <=? 0); [apply IH; assumption|].
    destruct (genre gkey) as [prof|e]; cbn [bind] in H; [|discriminate].
    destruct (fetch_movies_for_profile fetch prof n) as [pool|e] eqn:Ep; cbn [bind] in H; [|discriminate].
    destruct (pick_top_unique pool n true) as [picks|e] eqn:Ek; cbn [bind] in H; [|discriminate].
    destruct (mixed_loop fetch rest) as [tail|e] eqn:Et; cbn [bind] in H; [|discriminate].
    inversion H; subst. rewrite filter_app.
    destruct (String.eqb gkey g) eqn:Eg.
    + apply String.eqb_eq in Eg. subst gkey.
      rewrite filter_all by (intros gm Hgm; apply in_map_iff in Hgm as (m & <- & _);
                             apply String.eqb_refl).
      rewrite (filter_none _ tail).
      * rewrite app_nil_r, map_map.
        apply (pick_top_unique_nodup pool n); [|exact Ek].
        eapply fetch_movies_unique. exact Ep.
      * intros gm Hgm. apply String.eqb_neq. intros Heq. apply Hn. simpl in Hn.
        rewrite <- Heq. eapply mixed_loop_keys; eassumption.
    + rewrite filter_none.
      * apply IH; [exact Hnd' | reflexivity].
      * intros gm Hgm. apply in_map_iff in Hgm as (m & <- & _). exact Eg.
Qed.
End MixedIds.

(** C1 (as stated, refuted): with the answers of [sample_answers] the
    winners are [sf_fantasy] and [comedy]; when the catalog lists the same
    movie under every genre, [build_mixed_recommendations] returns it once
    for each winner, so the source identifiers of the returned list are
    not pairwise distinct. *)
Lemma mixed_cross_category_duplicate_cex :
  exists scores mixed,
    score_answers sample_answers = Ok scores /\
    build_mixed_recommendations one_movie_catalog
      (pick_top_genres scores MIXED_GENRE_TOP_N) RECOMMEND_COUNT = Ok mixed /\
    ~ NoDup (map source_id mixed).
Proof.
  eexists. eexists. split; [reflexivity|]. split; [reflexivity|].
  vm_compute. intros H. inversion H as [|? ? Hn _]. apply Hn. left. reflexivity.
Qed.

(** C1 (amended): for winners without repetition (as [pick_top_genres]
    returns them), the items attributed to any one category in the result
    of [build_mixed_recommendations] have pairwise distinct source
    identifiers; no deduplication is done across categories. *)
Theorem mixed_unique_per_category (fetch : Z -> Z -> http_outcome)
  (top_keys : list string) (total_count : Z) (mixed : list (string * json)) (g : string)
  (Hnd : NoDup top_keys)
  (Hok : build_mixed_recommendations fetch top_keys total_count = Ok mixed) :
  NoDup (map (fun gm => to_hash (source_id gm)) (filter (fun gm => String.eqb (fst gm) g) mixed)).
Proof.
  apply (mixed_loop_unique fetch
           (combine top_keys (budget_counts MIXED_GENRE_RATIO top_keys total_count))).
  - apply nodup_map_fst_combine. exact Hnd.
  - exact Hok.
Qed.

Definition two_movie_catalog (gid page : Z) : http_outcome :=
  Response 200 (Some (JObj [("results", JArr [movie 1 "Arrival"; movie 2 "Dune"; movie 1 "Arrival"])])).

Lemma mixed_unique_per_category_witness :
  NoDup ["sf_fantasy"; "comedy"] /\
  build_mixed_recommendations two_movie_catalog ["sf_fantasy"; "comedy"] 6
    = Ok [("sf_fantasy", movie 1 "Arrival"); ("sf_fantasy", movie 2 "Dune");
          ("comedy", movie 1 "Arrival"); ("comedy", movie 2 "Dune")] /\
  NoDup (map (fun gm => to_hash (source_id gm))
           (filter (fun gm => String.eqb (fst gm) "sf_fantasy")
              [("sf_fantasy", movie 1 "Arrival"); ("sf_fantasy", movie 2 "Dune");
               ("comedy", movie 1 "Arrival"); ("comedy", movie 2 "Dune")])).
Proof.
  assert (Hnd : NoDup ["sf_fantasy"; "comedy"]).
  { repeat constructor; simpl; intuition discriminate. }
  assert (Hok : build_mixed_recommendations two_movie_catalog ["sf_fantasy"; "comedy"] 6
    = Ok [("sf_fantasy", movie 1 "Arrival"); ("sf_fantasy", movie 2 "Dune");
          ("comedy", movie 1 "Arrival"); ("comedy", movie 2 "Dune")]) by reflexivity.
  split; [exact Hnd | split; [exact Hok |]].
  exact (mixed_unique_per_category two_movie_catalog _ 6 _ "sf_fantasy" Hnd Hok).
Defined.

(* ----------------------------------------------------------------- *)
(** ** The tiered resolver *)

Lemma dedupe_loop_bound (items : list mp_item) (limit : Z) :
  forall out seen r,
  Z.of_nat (List.length out) < limit ->
  dedupe_loop items limit out seen = Ok r -> Z.of_nat (List.length r) <= limit.
Proof.
  induction items as [|x xs IH]; cbn [dedupe_loop]; intros out seen r Hlt Hr.
  - inversion Hr; subst. lia.
  - destruct (to_hash (mp_id x)) as [h|e]; cbn [bind] in Hr; [|discriminate].
    destruct (existsb _ seen); [eapply IH; eassumption|].
    destruct (limit <=? Z.of_nat (List.length (out ++ [x])%list)) eqn:E.
    + inversion Hr; subst. rewrite length_app in *. simpl in *. lia.
    + apply Z.leb_gt in E. eapply IH; eassumption.
Qed.

Lemma dedupe_items_bound (items r : list mp_item) (limit : Z) :
  1 <= limit -> dedupe_items items limit = Ok r -> Z.of_nat (List.length r) <= limit.
Proof.
  intros Hl. apply dedupe_loop_bound. simpl. lia.
Qed.

Lemma discover_all_empty (fetch : mp_request -> http_outcome) medias genres language region v :
  (forall media genres language region v page,
     tmdb_discover fetch media genres language region v page = Ok []) ->
  discover_all fetch medias genres language region v = Ok [].
Proof.
  intros Hd. induction medias as [|m ms IH]; cbn [discover_all]; [reflexivity|].
  rewrite Hd. cbn [bind]. rewrite IH. reflexivity.
Qed.

(** C8: if every catalog call of every tier yields no item, the
    resolver returns the empty list (it does not raise); and for a
    requested count [n_items >= 1] (the minimum of the UI slider) the
    returned list never has more than [n_items] items. *)
Theorem resolver_empty_and_bounded (fetch : mp_request -> http_outcome)
  (content_mode mood vibe weather fallback_query language region : string)
  (vote_count_gte n_items : Z) (use_search_fallback : bool)
  (Hn : 1 <= n_items) :
  (forall l,
     tmdb_get_recommendations_weighted fetch content_mode mood vibe weather fallback_query
       language region vote_count_gte n_items use_search_fallback = Ok l ->
     Z.of_nat (List.length l) <= n_items) /\
  ((forall media genres language region v page,
      tmdb_discover fetch media genres language region v page = Ok []) ->
   (forall query language, tmdb_search_multi fetch query language = Ok []) ->
   tmdb_get_recommendations_weighted fetch content_mode mood vibe weather fallback_query
     language region vote_count_gte n_items use_search_fallback = Ok []).
Proof.
  unfold tmdb_get_recommendations_weighted.
  destruct (build_weighted_genre_lists mood vibe weather) as [primary secondary].
  split.
  - intros l H.
    destruct (discover_all fetch _ primary _ _ _) as [c0|e]; cbn [bind] in H; [|discriminate].
    destruct (dedupe_items c0 n_items) as [col|e] eqn:E1; cbn [bind] in H; [|discriminate].
    destruct (n_items <=? _); [inversion H; subst; eapply dedupe_items_bound; eassumption|].
    destruct (discover_all fetch _ secondary _ _ _) as [more|e]; cbn [bind] in H; [|discriminate].
    destruct (dedupe_items (col ++ more)%list n_items) as [col2|e] eqn:E2;
      cbn [bind] in H; [|discriminate].
    destruct (n_items <=? _); [inversion H; subst; eapply dedupe_items_bound; eassumption|].
    destruct use_search_fallback; [|inversion H; subst; eapply dedupe_items_bound; eassumption].
    destruct (tmdb_search_multi fetch fallback_query language) as [s1|e]; cbn [bind] in H; [|discriminate].
    destruct (negb _).
    + destruct (tmdb_search_multi fetch fallback_query "en-US") as [s2|e]; cbn [bind] in H;
        [|discriminate].
      eapply dedupe_items_bound; eassumption.
    + cbn [bind] in H. eapply dedupe_items_bound; eassumption.
  - intros Hd Hs.
    rewrite !(discover_all_empty fetch _ _ _ _ _ Hd). cbn [bind].
    change (dedupe_items [] n_items) with (@Ok (list mp_item) []). cbn [bind].
    destruct (n_items <=? _); [reflexivity|]. cbn [app bind].
    change (dedupe_items [] n_items) with (@Ok (list mp_item) []). cbn [bind].
    destruct (n_items <=? _); [reflexivity|].
    destruct use_search_fallback; [|reflexivity].
    rewrite !Hs. cbn [bind]. destruct (negb _); reflexivity.
Qed.

Definition empty_response : http_outcome :=
  Response 200 (Some (JObj [("results", JArr [])])).

Lemma resolver_empty_and_bounded_witness :
  (1 <= 3) /\
  tmdb_get_recommendations_weighted (fun _ => empty_response) "both" "설렘" "데이트" "맑음"
    "romance" "ko-KR" "KR" 150 3 true = Ok [].
Proof.
  split; [lia|].
  apply (proj2 (resolver_empty_and_bounded (fun _ => empty_response) "both" "설렘" "데이트"
           "맑음" "romance" "ko-KR" "KR" 150 3 true ltac:(lia))).
  - intros. reflexivity.
  - intros. reflexivity.
Defined.

(** A catalog call that fails inside the [try] block: a transport
    error, a 4xx/5xx status, or a body that is not JSON. *)
Definition call_fails (o : http_outcome) : Prop :=
  match o with
  | TransportFailure => True
  | Response s b => status_error s = true \/ b = None
  end.

Lemma call_fails_err (o : http_outcome) : call_fails o -> exists e, http_json o = Err e.
Proof.
  destruct o as [|s [d|]]; simpl; intros H.
  - eexists. reflexivity.
  - destruct H as [H | H]; [rewrite H; eexists; reflexivity | discriminate].
  - destruct (status_error s); eexists; reflexivity.
Qed.

Section Failures.
Variables fetch fetch' : mp_request -> http_outcome.

Lemma discover_fails (media : string) (genres : list Z) (language region : string) (v p : Z) :
  call_fails (fetch (MPDiscover media genres language region v p)) ->
  tmdb_discover fetch media genres language region v p = Ok [].
Proof.
  intros H. unfold tmdb_discover. destruct (call_fails_err _ H) as [e ->]. reflexivity.
Qed.

Lemma search_fails (query language : string) :
  call_fails (fetch (MPSearch query language)) -> tmdb_search_multi fetch query language = Ok [].
Proof.
  intros H. unfold tmdb_search_multi. destruct (call_fails_err _ H) as [e ->]. reflexivity.
Qed.

(** [fetch'] answers like [fetch], except that it may turn failing
    calls into empty result pages. *)
Hypothesis Hsub : forall r, fetch' r = fetch r \/ (call_fails (fetch r) /\ fetch' r = empty_response).

Lemma discover_same media genres language region v p :
  tmdb_discover fetch media genres language region v p
  = tmdb_discover fetch' media genres language region v p.
Proof.
  destruct (Hsub (MPDiscover media genres language region v p)) as [E | [Hf E]].
  - unfold tmdb_discover. rewrite E. reflexivity.
  - rewrite discover_fails by exact Hf. unfold tmdb_discover. rewrite E. reflexivity.
Qed.

Lemma search_same query language :
  tmdb_search_multi fetch query language = tmdb_search_multi fetch' query language.
Proof.
  destruct (Hsub (MPSearch query language)) as [E | [Hf E]].
  - unfold tmdb_search_multi. rewrite E. reflexivity.
  - rewrite search_fails by exact Hf. unfold tmdb_search_multi. rewrite E. reflexivity.
Qed.

Lemma discover_all_same medias genres language region v :
  discover_all fetch medias genres language region v
  = discover_all fetch' medias genres language region v.
Proof.
  induction medias as [|m ms IH]; cbn [discover_all]; [reflexivity|].
  rewrite discover_same, IH. reflexivity.
Qed.
End Failures.

(** C9: in MoodPick, a transport error, a 4xx/5xx status or an
    undecodable body makes [tmdb_discover] and [tmdb_search_multi] return
    the empty list instead of raising; and replacing any set of such
    failing calls by empty result pages leaves the resolver's outcome
    unchanged, so a failure is indistinguishable from an empty result. *)
Theorem catalog_failures_are_empty (fetch fetch' : mp_request -> http_outcome)
  (Hsub : forall r, fetch' r = fetch r \/ (call_fails (fetch r) /\ fetch' r = empty_response)) :
  (forall media genres language region v page,
     call_fails (fetch (MPDiscover media genres language region v page)) ->
     tmdb_discover fetch media genres language region v page = Ok []) /\
  (forall query language,
     call_fails (fetch (MPSearch query language)) ->
     tmdb_search_multi fetch query language = Ok []) /\
  (forall content_mode mood vibe weather fallback_query language region
          vote_count_gte n_items use_search_fallback,
     tmdb_get_recommendations_weighted fetch content_mode mood vibe weather fallback_query
       language region vote_count_gte n_items use_search_fallback
     = tmdb_get_recommendations_weighted fetch' content_mode mood vibe weather fallback_query
         language region vote_count_gte n_items use_search_fallback).
Proof.
  split; [exact (discover_fails fetch)|].
  split; [exact (search_fails fetch)|].
  intros. unfold tmdb_get_recommendations_weighted.
  destruct (build_weighted_genre_lists mood vibe weather) as [primary secondary].
  rewrite !(discover_all_same fetch fetch' Hsub), !(search_same fetch fetch' Hsub).
  reflexivity.
Qed.

Lemma catalog_failures_are_empty_witness :
  tmdb_discover (fun _ => TransportFailure) "movie" [35] "ko-KR" "KR" 150 1 = Ok [] /\
  tmdb_get_recommendations_weighted (fun _ => Response 503 None) "both" "무기력" "친구와" "흐림"
    "adventure" "ko-KR" "KR" 150 3 true
  = tmdb_get_recommendations_weighted (fun _ => empty_response) "both" "무기력" "친구와" "흐림"
      "adventure" "ko-KR" "KR" 150 3 true.
Proof.
  split.
  - apply (proj1 (catalog_failures_are_empty (fun _ => TransportFailure) (fun _ => empty_response)
                    (fun r => or_intror (conj I eq_refl)))).
    exact I.
  - apply (proj2 (proj2 (catalog_failures_are_empty (fun _ => Response 503 None)
                           (fun _ => empty_response)
                           (fun r => or_intror (conj (or_introl eq_refl) eq_refl))))).
Defined.

(* ================================================================= *)
(** * Further properties of the code *)

(* ----------------------------------------------------------------- *)
(** ** [dedupe_items] *)

(** The key [(x.get("media_type"), x.get("id"))] of an item, as hashed. *)
Definition dkey (x : mp_item) : string * result hval := (media_type x, to_hash (mp_id x)).

Definition okkey (k : string * hval) : string * result hval := (fst k, Ok (snd k)).

(** [out] and [seen] of [dedupe_items] move together. *)
Definition dkeys_ok (out : list mp_item) (seen : list (string * hval)) : Prop :=
  map dkey out = map okkey (rev seen) /\ NoDup seen.

Lemma okkey_nodup (l : list (string * hval)) : NoDup l -> NoDup (map okkey l).
Proof.
  induction 1 as [|[a h] l Hx Hl IH]; simpl; constructor; [|exact IH].
  intros Hin. apply in_map_iff in Hin as ([b h'] & Hy & Hin). unfold okkey in Hy. simpl in Hy.
  inversion Hy; subst. contradiction.
Qed.

Lemma existsb_key_false (k : string * hval) (seen : list (string * hval)) :
  existsb (fun y => if item_key_eq_dec k y then true else false) seen = false -> ~ In k seen.
Proof.
  intros H Hin.
  assert (existsb (fun y => if item_key_eq_dec k y then true else false) seen = true) as Ht.
  { apply existsb_exists. exists k. split; [exact Hin|].
    destruct (item_key_eq_dec k k); [reflexivity | contradiction]. }
  congruence.
Qed.

Lemma existsb_key_true (k : string * hval) (seen : list (string * hval)) :
  In k seen -> existsb (fun y => if item_key_eq_dec k y then true else false) seen = true.
Proof.
  intros Hin. apply existsb_exists. exists k. split; [exact Hin|].
  destruct (item_key_eq_dec k k); [reflexivity | contradiction].
Qed.

Lemma dedupe_loop_spec (items : list mp_item) (limit : Z) :
  forall out seen r,
  dkeys_ok out seen -> dedupe_loop items limit out seen = Ok r ->
  (exists sub, r = (out ++ sub)%list /\ subseq sub items) /\ exists seen', dkeys_ok r seen'.
Proof.
  induction items as [|x xs IH]; cbn [dedupe_loop]; intros out seen r Hinv Hr.
  - inversion Hr; subst. split; [exists []; rewrite app_nil_r; split; [reflexivity|constructor]|].
    exists seen. exact Hinv.
  - destruct (to_hash (mp_id x)) as [h|e] eqn:Eh; cbn [bind] in Hr; [|discriminate].
    destruct (existsb _ seen) eqn:Em.
    + destruct (IH _ _ _ Hinv Hr) as [(sub & -> & Hs) Hk]. split; [|exact Hk].
      exists sub. split; [reflexivity | apply subseq_skip; exact Hs].
    + assert (Hinv' : dkeys_ok (out ++ [x])%list ((media_type x, h) :: seen)).
      { destruct Hinv as [Hmap Hnd]. split.
        - rewrite map_app, Hmap. simpl. rewrite map_app. unfold dkey. rewrite Eh. reflexivity.
        - constructor; [apply existsb_key_false; exact Em | exact Hnd]. }
      destruct (limit <=? _).
      * inversion Hr; subst. split; [|eexists; exact Hinv'].
        exists [x]. split; [reflexivity | apply subseq_take, subseq_nil_l].
      * destruct (IH _ _ _ Hinv' Hr) as [(sub & -> & Hs) Hk]. split; [|exact Hk].
        exists (x :: sub). split; [rewrite <- app_assoc; reflexivity | apply subseq_take; exact Hs].
Qed.

(** [dedupe_items] returns items of its input, in their input order,
    with pairwise distinct [(media_type, id)] keys. *)
Theorem dedupe_items_unique (items r : list mp_item) (limit : Z) :
  dedupe_items items limit = Ok r -> subseq r items /\ NoDup (map dkey r).
Proof.
  intros H. destruct (dedupe_loop_spec items limit [] [] r (conj eq_refl (NoDup_nil _)) H)
    as [(sub & -> & Hs) (seen' & Hmap & Hnd)].
  split; [exact Hs|]. simpl in Hmap |- *. rewrite Hmap. apply okkey_nodup, NoDup_rev, Hnd.
Qed.

Definition tv_item (id : Z) : mp_item :=
  {| media_type := "tv"; title := JStr "Show"; overview := JStr ""; poster_url := None;
     mp_id := JNum id |}.

Lemma dedupe_items_unique_witness :
  dedupe_items [tv_item 1; tv_item 1; tv_item 2] 5 = Ok [tv_item 1; tv_item 2] /\
  NoDup (map dkey [tv_item 1; tv_item 2]).
Proof.
  assert (H : dedupe_items [tv_item 1; tv_item 1; tv_item 2] 5 = Ok [tv_item 1; tv_item 2])
    by reflexivity.
  split; [exact H | exact (proj2 (dedupe_items_unique _ _ _ H))].
Defined.

Lemma dedupe_loop_len (items : list mp_item) (limit : Z) :
  forall out seen r,
  (out = [] \/ Z.of_nat (List.length out) < limit) ->
  dedupe_loop items limit out seen = Ok r ->
  (List.length r <= 1)%nat \/ Z.of_nat (List.length r) <= limit.
Proof.
  induction items as [|x xs IH]; cbn [dedupe_loop]; intros out seen r Hinv Hr.
  - inversion Hr; subst. destruct Hinv as [->|Hl]; [left; simpl; lia | right; lia].
  - destruct (to_hash (mp_id x)) as [h|e]; cbn [bind] in Hr; [|discriminate].
    destruct (existsb _ seen); [exact (IH _ _ _ Hinv Hr)|].
    destruct (limit <=? _) eqn:El.
    + inversion Hr; subst. rewrite length_app. simpl.
      destruct Hinv as [->|Hl]; [left; simpl; lia | right; lia].
    + apply Z.leb_gt in El. exact (IH _ _ _ (or_intror El) Hr).
Qed.

Lemma dedupe_loop_keep (l : list mp_item) (limit : Z) :
  forall out seen ks,
  map dkey l = map okkey ks -> NoDup ks -> (forall k, In k ks -> ~ In k seen) ->
  ((List.length l <= 1)%nat \/ Z.of_nat (List.length out + List.length l) <= limit) ->
  dedupe_loop l limit out seen = Ok (out ++ l)%list.
Proof.
  induction l as [|x xs IH]; cbn [dedupe_loop]; intros out seen ks Hmap Hnd Hdis Hlen.
  - rewrite app_nil_r. reflexivity.
  - destruct ks as [|[m h] ks]; [discriminate|]. simpl in Hmap. inversion Hmap as [[Hm Hh Hrest]].
    unfold dkey in Hm, Hh. rewrite Hh. cbn [bind]. rewrite <- Hm in *.
    inversion Hnd as [|? ? Hnin Hnd']; subst.
    destruct (existsb _ seen) eqn:Ex.
    { exfalso. apply (Hdis (media_type x, h)); [left; reflexivity|].
      apply existsb_exists in Ex as (y & Hy & Hxy).
      destruct (item_key_eq_dec (media_type x, h) y); [subst; exact Hy | discriminate]. }
    destruct (limit <=? _) eqn:El.
    + destruct xs as [|x' xs'].
      * reflexivity.
      * exfalso. apply Z.leb_le in El. rewrite length_app in El. simpl in Hlen, El. lia.
    + rewrite (IH (out ++ [x])%list ((media_type x, h) :: seen) ks Hrest Hnd').
      * rewrite <- app_assoc. reflexivity.
      * intros k Hk [Heq|Hin]; [subst; contradiction | exact (Hdis k (or_intror Hk) Hin)].
      * rewrite length_app. simpl in Hlen |- *. destruct Hlen as [Hl|Hl]; [left; lia | right; lia].
Qed.

(** [dedupe_items] is idempotent: running it again, with the same
    [limit], on a list it returned gives that list back unchanged. *)
Theorem dedupe_items_idempotent (items r : list mp_item) (limit : Z) :
  dedupe_items items limit = Ok r -> dedupe_items r limit = Ok r.
Proof.
  intros H. destruct (dedupe_loop_spec items limit [] [] r (conj eq_refl (NoDup_nil _)) H)
    as [_ (seen' & Hmap & Hnd)].
  unfold dedupe_items. apply (dedupe_loop_keep r limit [] [] (rev seen')).
  - exact Hmap.
  - apply NoDup_rev, Hnd.
  - intros k _ [].
  - exact (dedupe_loop_len items limit [] [] r (or_introl eq_refl) H).
Qed.

Lemma dedupe_items_idempotent_witness :
  dedupe_items [tv_item 1; tv_item 1; tv_item 2] 0 = Ok [tv_item 1] /\
  dedupe_items [tv_item 1] 0 = Ok [tv_item 1].
Proof.
  assert (H : dedupe_items [tv_item 1; tv_item 1; tv_item 2] 0 = Ok [tv_item 1])
    by reflexivity.
  split; [exact H | exact (dedupe_items_idempotent _ _ _ H)].
Defined.

(** Whatever the catalog answers, the list returned by
    [tmdb_get_recommendations_weighted] never holds two entries with the
    same [(media_type, id)] key, across tiers, media types and the
    search fallback. *)
Theorem resolver_keys_unique (fetch : mp_request -> http_outcome)
  (content_mode mood vibe weather q language region : string)
  (vote n_items : Z) (use_search : bool) (r : list mp_item) :
  tmdb_get_recommendations_weighted fetch content_mode mood vibe weather q language region
    vote n_items use_search = Ok r ->
  NoDup (map dkey r).
Proof.
  unfold tmdb_get_recommendations_weighted.
  destruct (build_weighted_genre_lists mood vibe weather) as [primary secondary].
  intros H.
  destruct (discover_all _ _ primary _ _ _) as [c0|]; cbn [bind] in H; [|discriminate].
  destruct (dedupe_items c0 n_items) as [collected|] eqn:E1; cbn [bind] in H; [|discriminate].
  destruct (n_items <=? _).
  { inversion H; subst. exact (proj2 (dedupe_items_unique _ _ _ E1)). }
  destruct (discover_all _ _ secondary _ _ _) as [more|]; cbn [bind] in H; [|discriminate].
  destruct (dedupe_items (collected ++ more)%list n_items) as [c2|] eqn:E2;
    cbn [bind] in H; [|discriminate].
  destruct (n_items <=? _).
  { inversion H; subst. exact (proj2 (dedupe_items_unique _ _ _ E2)). }
  destruct use_search.
  - destruct (tmdb_search_multi fetch q language) as [s1|]; cbn [bind] in H; [|discriminate].
    destruct (negb _).
    + destruct (tmdb_search_multi fetch q "en-US") as [s2|]; cbn [bind] in H; [|discriminate].
      exact (proj2 (dedupe_items_unique _ _ _ H)).
    + cbn [bind] in H. exact (proj2 (dedupe_items_unique _ _ _ H)).
  - inversion H; subst. exact (proj2 (dedupe_items_unique _ _ _ E2)).
Qed.

(** A catalog whose discover endpoint lists the same id twice. *)
Definition repeat_item_catalog (r : mp_request) : http_outcome :=
  Response 200 (Some (JObj [("results", JArr [mp_result 1; mp_result 1; mp_result 2])])).

Lemma resolver_keys_unique_witness :
  exists r, tmdb_get_recommendations_weighted repeat_item_catalog "both" "피곤함" "혼자" "비"
    "cozy" "ko-KR" "KR" 150 3 true = Ok r /\ List.length r = 3%nat /\ NoDup (map dkey r).
Proof.
  eexists. assert (H : tmdb_get_recommendations_weighted repeat_item_catalog "both" "피곤함"
    "혼자" "비" "cozy" "ko-KR" "KR" 150 3 true = Ok (
      [Build_mp_item "movie" (JStr "Paddington") (JStr "") None (JNum 1);
       Build_mp_item "movie" (JStr "Paddington") (JStr "") None (JNum 2);
       Build_mp_item "tv" (JStr "Paddington") (JStr "") None (JNum 1)])) by reflexivity.
  split; [exact H|]. split; [reflexivity|]. exact (resolver_keys_unique _ _ _ _ _ _ _ _ _ _ _ _ H).
Defined.

(* ----------------------------------------------------------------- *)
(** ** [build_weighted_genre_lists] *)

Lemma dedup_ids_in (l : list Z) : forall seen g,
  In g (dedup_ids l seen) <-> In g l /\ ~ In g seen.
Proof.
  induction l as [|x l IH]; intros seen g; cbn [dedup_ids].
  - simpl. tauto.
  - destruct (existsb (Z.eqb x) seen) eqn:Ex.
    + rewrite IH. apply existsb_exists in Ex as (y & Hy & Hxy). apply Z.eqb_eq in Hxy. subst y.
      simpl. split; [tauto|]. intros [[->|Hin] Hn]; [contradiction | tauto].
    + simpl. rewrite IH. simpl.
      assert (~ In x seen) as Hx.
      { intros Hin. assert (existsb (Z.eqb x) seen = true); [|congruence].
        apply existsb_exists. exists x. split; [exact Hin | apply Z.eqb_refl]. }
      split.
      * intros [->|[Hin Hn]]; [tauto|]. split; [tauto|]. tauto.
      * intros [[->|Hin] Hn]; [tauto|]. destruct (Z.eq_dec x g); [left; exact e|].
        right. split; [exact Hin|]. intros [->|H]; [contradiction | tauto].
Qed.

Lemma dedup_ids_nodup (l : list Z) : forall seen, NoDup (dedup_ids l seen).
Proof.
  induction l as [|x l IH]; intros seen; cbn [dedup_ids]; [constructor|].
  destruct (existsb (Z.eqb x) seen); [apply IH|].
  constructor; [|apply IH]. rewrite dedup_ids_in. simpl. tauto.
Qed.

(** For every mood, vibe and weather (also ones not in the tables), the
    primary and secondary genre lists have no repeated genre id, and
    every genre of the primary list is also in the secondary list. *)
Theorem weighted_genre_lists_shape (mood vibe weather : string) :
  let '(primary, secondary) := build_weighted_genre_lists mood vibe weather in
  NoDup primary /\ NoDup secondary /\ incl primary secondary.
Proof.
  unfold build_weighted_genre_lists.
  destruct (match assoc mood MOOD_TO_GENRES_WEIGHTED with Some p => p | None => _ end)
    as [bp bs].
  split; [apply dedup_ids_nodup|]. split; [apply dedup_ids_nodup|].
  intros g Hg. apply dedup_ids_in in Hg as [Hg _]. apply dedup_ids_in.
  split; [apply in_or_app; right; exact Hg | intros []].
Qed.

(* ----------------------------------------------------------------- *)
(** ** Items built from catalog results *)

Lemma py_or_truthy (a b : json) : truthy b = true -> truthy (py_or a b) = true.
Proof. unfold py_or. destruct (truthy a) eqn:E; intros H; [exact E | exact H]. Qed.

Lemma mk_item_shape (m : string) (x : json) (f : option string) (it : mp_item) :
  mk_item m x f = Ok it -> media_type it = m /\ truthy (title it) = true.
Proof.
  unfold mk_item. intros H.
  destruct (py_get x "title" JNull) as [t1|]; cbn [bind] in H; [|discriminate].
  destruct (py_get x "name" JNull) as [t2|]; cbn [bind] in H; [|discriminate].
  destruct (py_get x "overview" JNull); cbn [bind] in H; [|discriminate].
  destruct (py_get x "poster_path" JNull); cbn [bind] in H; [|discriminate].
  destruct (match f with Some _ => _ | None => _ end); cbn [bind] in H; [|discriminate].
  destruct (py_get x "id" JNull); cbn [bind] in H; [|discriminate].
  inversion H; subst. simpl. split; [reflexivity|].
  apply py_or_truthy, py_or_truthy. reflexivity.
Qed.

(** Item [it] may be returned when the discover endpoint was queried for
    the media types [medias] and the search fallback is [search]. *)
Definition item_from (medias : list string) (search : bool) (it : mp_item) : Prop :=
  truthy (title it) = true /\
  (In (media_type it) medias \/
   (search = true /\ (media_type it = "movie" \/ media_type it = "tv"))).

Lemma discover_items_from (media : string) (medias : list string) (search : bool) :
  In media medias -> forall xs its, discover_items media xs = Ok its ->
  Forall (item_from medias search) its.
Proof.
  intros Hm. induction xs as [|x xs IH]; cbn [discover_items]; intros its H.
  - inversion H; constructor.
  - destruct (mk_item media x None) as [it|] eqn:Ei; cbn [bind] in H; [|discriminate].
    destruct (discover_items media xs) as [rest|]; cbn [bind] in H; [|discriminate].
    inversion H; subst. destruct (mk_item_shape _ _ _ _ Ei) as [Hmt Ht].
    constructor; [split; [exact Ht | left; rewrite Hmt; exact Hm] | exact (IH _ eq_refl)].
Qed.

Lemma search_items_from (medias : list string) :
  forall xs its, search_items xs = Ok its -> Forall (item_from medias true) its.
Proof.
  induction xs as [|x xs IH]; cbn [search_items]; intros its H.
  - inversion H; constructor.
  - destruct (py_get x "media_type" JNull) as [mt|]; cbn [bind] in H; [|discriminate].
    destruct mt as [| | |m| |]; try exact (IH _ H).
    destruct (String.eqb m "movie" || String.eqb m "tv") eqn:Em; [|exact (IH _ H)].
    destruct (mk_item m x (Some "profile_path")) as [it|] eqn:Ei; cbn [bind] in H; [|discriminate].
    destruct (search_items xs) as [rest|]; cbn [bind] in H; [|discriminate].
    inversion H; subst. destruct (mk_item_shape _ _ _ _ Ei) as [Hmt Ht].
    constructor; [|exact (IH _ eq_refl)]. split; [exact Ht|]. right. split; [reflexivity|].
    rewrite Hmt. apply orb_true_iff in Em as [E|E]; apply String.eqb_eq in E; tauto.
Qed.

Lemma discover_all_from (fetch : mp_request -> http_outcome) (medias : list string)
  (search : bool) (genres : list Z) (language region : string) (vote : Z) :
  forall ms its, incl ms medias ->
  discover_all fetch ms genres language region vote = Ok its ->
  Forall (item_from medias search) its.
Proof.
  induction ms as [|m ms IH]; cbn [discover_all]; intros its Hincl H.
  - inversion H; constructor.
  - destruct (tmdb_discover fetch m genres language region vote 1) as [a|] eqn:Ea;
      cbn [bind] in H; [|discriminate].
    destruct (discover_all fetch ms genres language region vote) as [b|] eqn:Eb;
      cbn [bind] in H; [|discriminate].
    inversion H; subst. apply Forall_app. split.
    + unfold tmdb_discover in Ea.
      destruct (http_json _) as [data|]; [|inversion Ea; constructor].
      destruct (results_of data) as [xs|]; cbn [bind] in Ea; [|discriminate].
      exact (discover_items_from m medias search (Hincl m (or_introl eq_refl)) xs a Ea).
    + apply (IH b); [intros y Hy; apply Hincl; right; exact Hy | reflexivity].
Qed.

Lemma search_multi_from (fetch : mp_request -> http_outcome) (medias : list string)
  (q language : string) (its : list mp_item) :
  tmdb_search_multi fetch q language = Ok its -> Forall (item_from medias true) its.
Proof.
  unfold tmdb_search_multi. intros H.
  destruct (http_json _) as [data|]; [|inversion H; constructor].
  destruct (results_of data) as [xs|]; cbn [bind] in H; [|discriminate].
  exact (search_items_from medias xs its H).
Qed.

Lemma dedupe_items_forall (P : mp_item -> Prop) (items r : list mp_item) (limit : Z) :
  Forall P items -> dedupe_items items limit = Ok r -> Forall P r.
Proof.
  intros HP H. apply Forall_forall. intros x Hx.
  destruct (dedupe_items_unique _ _ _ H) as [Hs _].
  exact (proj1 (Forall_forall P items) HP x (subseq_in _ _ _ Hs Hx)).
Qed.

(** Every item returned by [tmdb_get_recommendations_weighted] has a
    truthy title (the code falls back to ["Untitled"]), and its media
    type is one of the media types asked for ([movie] and [tv] for
    ["both"]); only through the search fallback, when it is enabled, can
    it be ["movie"] or ["tv"] outside them. *)
Theorem resolver_items_shape (fetch : mp_request -> http_outcome)
  (content_mode mood vibe weather q language region : string)
  (vote n_items : Z) (use_search : bool) (r : list mp_item) :
  tmdb_get_recommendations_weighted fetch content_mode mood vibe weather q language region
    vote n_items use_search = Ok r ->
  Forall (item_from (media_list content_mode) use_search) r.
Proof.
  unfold tmdb_get_recommendations_weighted.
  destruct (build_weighted_genre_lists mood vibe weather) as [primary secondary].
  set (medias := media_list content_mode). intros H.
  destruct (discover_all _ _ primary _ _ _) as [c0|] eqn:E0; cbn [bind] in H; [|discriminate].
  pose proof (discover_all_from _ medias use_search _ _ _ _ medias c0 (incl_refl _) E0) as F0.
  destruct (dedupe_items c0 n_items) as [collected|] eqn:E1; cbn [bind] in H; [|discriminate].
  pose proof (dedupe_items_forall _ _ _ _ F0 E1) as F1.
  destruct (n_items <=? _); [inversion H; subst; exact F1|].
  destruct (discover_all _ _ secondary _ _ _) as [more|] eqn:E2; cbn [bind] in H; [|discriminate].
  pose proof (discover_all_from _ medias use_search _ _ _ _ medias more (incl_refl _) E2) as F2.
  destruct (dedupe_items (collected ++ more)%list n_items) as [c2|] eqn:E3;
    cbn [bind] in H; [|discriminate].
  pose proof (dedupe_items_forall _ _ _ _ (proj2 (Forall_app _ _ _) (conj F1 F2)) E3) as F3.
  destruct (n_items <=? _); [inversion H; subst; exact F3|].
  destruct use_search; [|inversion H; subst; exact F3].
  destruct (tmdb_search_multi fetch q language) as [s1|] eqn:S1; cbn [bind] in H; [|discriminate].
  pose proof (search_multi_from _ medias _ _ _ S1) as G1.
  destruct (negb _).
  - destruct (tmdb_search_multi fetch q "en-US") as [s2|] eqn:S2; cbn [bind] in H; [|discriminate].
    pose proof (search_multi_from _ medias _ _ _ S2) as G2.
    apply (dedupe_items_forall _ _ _ _ (proj2 (Forall_app _ _ _)
      (conj F3 (proj2 (Forall_app _ _ _) (conj G1 G2)))) H).
  - cbn [bind] in H. apply (dedupe_items_forall _ _ _ _ (proj2 (Forall_app _ _ _) (conj F3 G1)) H).
Qed.

Lemma resolver_items_shape_witness :
  exists r, tmdb_get_recommendations_weighted repeat_item_catalog "tv" "피곤함" "혼자" "비"
    "cozy" "ko-KR" "KR" 150 2 false = Ok r /\ r <> [] /\
    Forall (item_from (media_list "tv") false) r.
Proof.
  eexists. assert (H : tmdb_get_recommendations_weighted repeat_item_catalog "tv" "피곤함"
    "혼자" "비" "cozy" "ko-KR" "KR" 150 2 false = Ok (
      [Build_mp_item "tv" (JStr "Paddington") (JStr "") None (JNum 1);
       Build_mp_item "tv" (JStr "Paddington") (JStr "") None (JNum 2)])) by reflexivity.
  split; [exact H|]. split; [discriminate|].
  exact (resolver_items_shape _ _ _ _ _ _ _ _ _ _ _ _ H).
Defined.

(** A reply that decodes to JSON other than an object is not caught by
    the [try] of MoodPick's [tmdb_discover], which covers only the
    request and the decoding: [data.get] raises [AttributeError], and
    [tmdb_get_recommendations_weighted] lets it propagate. *)
Theorem resolver_non_object_reply (s : Z) (v : json)
  (Hs : status_error s = false) (Hv : forall kvs, v <> JObj kvs)
  (content_mode mood vibe weather q language region : string)
  (vote n_items : Z) (use_search : bool) :
  tmdb_get_recommendations_weighted (fun _ => Response s (Some v)) content_mode mood vibe
    weather q language region vote n_items use_search = Err AttributeError.
Proof.
  unfold tmdb_get_recommendations_weighted.
  destruct (build_weighted_genre_lists mood vibe weather) as [primary secondary].
  assert (Hd : forall m g l r' vc p,
    tmdb_discover (fun _ => Response s (Some v)) m g l r' vc p = Err AttributeError).
  { intros. unfold tmdb_discover, http_json. rewrite Hs. unfold results_of, py_get.
    destruct v; try reflexivity. exfalso. exact (Hv kvs eq_refl). }
  unfold media_list. destruct (String.eqb content_mode "both");
    cbn [discover_all]; rewrite Hd; reflexivity.
Qed.

Lemma resolver_non_object_reply_witness :
  tmdb_get_recommendations_weighted (fun _ => Response 200 (Some (JArr []))) "both" "피곤함"
    "혼자" "비" "cozy" "ko-KR" "KR" 150 3 true = Err AttributeError.
Proof.
  apply (resolver_non_object_reply 200 (JArr [])); [reflexivity | discriminate].
Defined.

(* ----------------------------------------------------------------- *)
(** ** [pick_top_unique] *)

(** [out] and [seen_titles] of [pick_top_unique] move together. *)
Definition titles_ok (out : list json) (seen : list string) : Prop :=
  map movie_title out = map Ok (rev seen) /\ NoDup seen /\ ~ In "" seen.

Lemma nodup_map_ok_string (l : list string) : NoDup l -> NoDup (map (@Ok string) l).
Proof.
  induction 1 as [|x l Hx Hl IH]; simpl; constructor; [|exact IH].
  intros Hin. apply in_map_iff in Hin as (y & Hy & Hin). inversion Hy; subst. contradiction.
Qed.

Lemma unique_loop_spec (ms : list json) (limit : Z) :
  forall out seen r,
  titles_ok out seen -> (out = [] \/ Z.of_nat (List.length out) < limit) ->
  unique_loop ms limit out seen = Ok r ->
  (exists seen', titles_ok r seen') /\
  ((List.length r <= 1)%nat \/ Z.of_nat (List.length r) <= limit).
Proof.
  induction ms as [|m ms IH]; cbn [unique_loop]; intros out seen r Hinv Hlen Hr.
  - inversion Hr; subst. split; [exists seen; exact Hinv|].
    destruct Hlen as [->|Hl]; [left; simpl; lia | right; lia].
  - destruct (movie_title m) as [t|] eqn:Et; cbn [bind] in Hr; [|discriminate].
    destruct (String.eqb t "" || existsb (String.eqb t) seen) eqn:Eskip;
      [exact (IH _ _ _ Hinv Hlen Hr)|].
    apply orb_false_iff in Eskip as [Ee Ex].
    assert (Hinv' : titles_ok (out ++ [m])%list (t :: seen)).
    { destruct Hinv as (Hmap & Hnd & Hne). split; [|split].
      - rewrite map_app, Hmap. simpl. rewrite map_app, Et. reflexivity.
      - constructor; [|exact Hnd]. intros Hin.
        assert (existsb (String.eqb t) seen = true) as Hx; [|congruence].
        apply existsb_exists. exists t. split; [exact Hin | apply String.eqb_refl].
      - intros [Heq|Hin]; [subst t; discriminate | contradiction]. }
    destruct (limit <=? _) eqn:El.
    + inversion Hr; subst. split; [exists (t :: seen); exact Hinv'|].
      rewrite length_app. simpl. destruct Hlen as [->|Hl]; [left; simpl; lia | right; lia].
    + apply Z.leb_gt in El. exact (IH _ _ _ Hinv' (or_intror El) Hr).
Qed.

Lemma subseq_perm_in {A} (r l1 l2 : list A) :
  subseq r l1 -> Permutation l1 l2 -> forall x, In x r -> In x l2.
Proof.
  intros Hs Hp x Hx. apply (Permutation_in _ Hp). exact (subseq_in _ _ _ Hs Hx).
Qed.

(** The movies chosen by [pick_top_unique] come from its input; their
    stripped titles are non-empty and pairwise distinct; and there are at
    most [limit] of them (at most one when [limit <= 0]: the check
    [len(out) >= limit] comes after the first append). *)
Theorem pick_top_unique_titles (movies : list json) (limit : Z) (poster_first : bool)
  (r : list json) :
  pick_top_unique movies limit poster_first = Ok r ->
  (forall m, In m r -> In m movies) /\
  (exists ts, map movie_title r = map Ok ts /\ NoDup ts /\ ~ In "" ts) /\
  ((List.length r <= 1)%nat \/ Z.of_nat (List.length r) <= limit).
Proof.
  unfold pick_top_unique. intros H.
  assert (Hsrc : forall ms, (forall m, In m ms -> In m movies) ->
            unique_loop ms limit [] [] = Ok r -> forall m, In m r -> In m movies).
  { intros ms Hms Hu m Hm. destruct (unique_loop_subseq _ _ _ _ _ Hu) as (sub & -> & Hs).
    apply Hms. exact (subseq_in _ _ _ Hs Hm). }
  assert (Hmain : forall ms, unique_loop ms limit [] [] = Ok r ->
            (exists ts, map movie_title r = map Ok ts /\ NoDup ts /\ ~ In "" ts) /\
            ((List.length r <= 1)%nat \/ Z.of_nat (List.length r) <= limit)).
  { intros ms Hu.
    destruct (unique_loop_spec ms limit [] [] r (conj eq_refl (conj (NoDup_nil _) (fun h => h)))
                (or_introl eq_refl) Hu) as [(seen' & Hmap & Hnd & Hne) Hlen].
    split; [|exact Hlen]. exists (rev seen'). split; [exact Hmap|].
    split; [apply NoDup_rev, Hnd | rewrite <- in_rev; exact Hne]. }
  destruct poster_first.
  - destruct (decorate_movies movies) as [d|] eqn:Ed; cbn [bind] in H; [|discriminate].
    split; [|exact (Hmain _ H)].
    apply (Hsrc (map snd (sort_by keyed_le d))); [|exact H]. intros m Hm.
    rewrite <- (decorate_movies_snd movies d Ed).
    apply (Permutation_in _ (Permutation_map snd (sort_by_perm keyed_le d))). exact Hm.
  - cbn [bind] in H. split; [exact (Hsrc movies (fun m h => h) H) | exact (Hmain _ H)].
Qed.

Definition titled (id : Z) (t : string) (poster : json) (vote : Z) : json :=
  JObj [("id", JNum id); ("title", JStr t); ("poster_path", poster); ("vote_average", JNum vote)].

Lemma pick_top_unique_titles_witness :
  exists r,
  pick_top_unique [titled 1 " Dune " JNull 8; titled 2 "Dune" (JStr "/d.jpg") 7;
                   titled 3 "" (JStr "/e.jpg") 9; titled 4 "Up" (JStr "/u.jpg") 6;
                   titled 5 "Dune " (JStr "/f.jpg") 8; titled 6 "　" (JStr "/g.jpg") 10] 3 true
    = Ok r /\ List.length r = 2%nat /\
  (exists ts, map movie_title r = map Ok ts /\ NoDup ts /\ ~ In "" ts).
Proof.
  eexists.
  assert (H : pick_top_unique [titled 1 " Dune " JNull 8; titled 2 "Dune" (JStr "/d.jpg") 7;
                   titled 3 "" (JStr "/e.jpg") 9; titled 4 "Up" (JStr "/u.jpg") 6;
                   titled 5 "Dune " (JStr "/f.jpg") 8; titled 6 "　" (JStr "/g.jpg") 10] 3 true
    = Ok [titled 5 "Dune " (JStr "/f.jpg") 8; titled 4 "Up" (JStr "/u.jpg") 6])
    by reflexivity.
  split; [exact H|]. split; [reflexivity|].
  exact (proj1 (proj2 (pick_top_unique_titles _ _ _ _ H))).
Defined.

Lemma subseq_map_inv {A B} (f : A -> B) (r : list B) (l : list A) :
  subseq r (map f l) -> exists l', subseq l' l /\ r = map f l'.
Proof.
  revert r. induction l as [|x l IH]; simpl; intros r Hs.
  - inversion Hs; subst. exists []. split; [constructor | reflexivity].
  - inversion Hs as [|? ? ? Hs' | ? r' ? Hs']; subst.
    + destruct (IH r Hs') as (l' & Hl' & ->). exists l'. split; [apply subseq_skip; exact Hl' | reflexivity].
    + destruct (IH r' Hs') as (l' & Hl' & ->). exists (x :: l').
      split; [apply subseq_take; exact Hl' | reflexivity].
Qed.

Lemma subseq_sorted {A} (R : A -> A -> Prop) (l1 l2 : list A) :
  subseq l1 l2 -> StronglySorted R l2 -> StronglySorted R l1.
Proof.
  induction 1 as [|x l1 l2 Hs IH|x l1 l2 Hs IH]; intros Hss.
  - constructor.
  - apply IH. apply StronglySorted_inv in Hss. apply Hss.
  - apply StronglySorted_inv in Hss as [Hss Hf]. constructor; [apply IH; exact Hss|].
    rewrite Forall_forall in Hf |- *. intros y Hy. apply Hf. exact (subseq_in _ _ _ Hs Hy).
Qed.

Lemma sorted_map_fst {B} (l : list ((Z * Z) * B)) :
  StronglySorted (fun x y => keyed_le x y = true) l ->
  StronglySorted (fun a b => key_le a b = true) (map fst l).
Proof.
  induction 1 as [|x l Hs IH Hf]; simpl; constructor; [exact IH|].
  apply Forall_map. exact Hf.
Qed.

Lemma decorate_movies_keys (ms : list json) (d : list ((Z * Z) * json)) :
  decorate_movies ms = Ok d -> Forall (fun km => poster_key (snd km) = Ok (fst km)) d.
Proof.
  revert d. induction ms as [|m ms IH]; simpl; intros d H.
  - inversion H; constructor.
  - destruct (poster_key m) as [k|e] eqn:Ek; simpl in H; [|discriminate].
    destruct (decorate_movies ms) as [d'|e]; simpl in H; [|discriminate].
    inversion H; subst. constructor; [exact Ek | apply IH; reflexivity].
Qed.

(** With [poster_first], the movies chosen by [pick_top_unique] are in
    the order of the sort key [(poster_path is None, -rating)]: every
    movie with a poster comes before every movie without one, and among
    movies of the same kind ratings do not increase. *)
Theorem pick_top_unique_poster_order (movies : list json) (limit : Z) (r : list json) :
  pick_top_unique movies limit true = Ok r ->
  exists ks, map poster_key r = map Ok ks /\
             StronglySorted (fun a b => key_le a b = true) ks.
Proof.
  unfold pick_top_unique. intros H.
  destruct (decorate_movies movies) as [d|e] eqn:Ed; cbn [bind] in H; [|discriminate].
  destruct (unique_loop_subseq _ _ _ _ _ H) as (sub & Hr & Hs). simpl in Hr. subst r.
  destruct (subseq_map_inv _ _ _ Hs) as (l' & Hl' & ->).
  exists (map fst l'). split.
  - rewrite map_map, map_map. apply map_ext_in. intros km Hkm.
    pose proof (decorate_movies_keys _ _ Ed) as Hk. rewrite Forall_forall in Hk.
    apply Hk. apply (Permutation_in _ (sort_by_perm keyed_le d)). exact (subseq_in _ _ _ Hl' Hkm).
  - apply sorted_map_fst. apply (subseq_sorted _ _ _ Hl').
    apply sort_by_sorted; [apply keyed_le_total | apply keyed_le_trans].
Qed.

Lemma pick_top_unique_poster_order_witness :
  exists r,
  pick_top_unique [titled 1 "Arrival" JNull 9; titled 2 "Dune" (JStr "/d.jpg") 6;
                   titled 3 "Up" (JStr "/u.jpg") 8] 3 true = Ok r /\
  map poster_key r = map Ok [(0, -8); (0, -6); (1, -9)] /\
  StronglySorted (fun a b => key_le a b = true) [(0, -8); (0, -6); (1, -9)].
Proof.
  eexists.
  assert (H : pick_top_unique [titled 1 "Arrival" JNull 9; titled 2 "Dune" (JStr "/d.jpg") 6;
                   titled 3 "Up" (JStr "/u.jpg") 8] 3 true
    = Ok [titled 3 "Up" (JStr "/u.jpg") 8; titled 2 "Dune" (JStr "/d.jpg") 6;
          titled 1 "Arrival" JNull 9]) by reflexivity.
  split; [exact H|].
  destruct (pick_top_unique_poster_order _ _ _ H) as (ks & Hks & Hs).
  assert (E : ks = [(0, -8); (0, -6); (1, -9)]).
  { simpl in Hks. inversion Hks as [Hks']. destruct ks as [|a [|b [|c [|]]]]; try discriminate.
    simpl in Hks'. inversion Hks'. reflexivity. }
  rewrite <- E. split; [exact Hks | exact Hs].
Defined.

(* ----------------------------------------------------------------- *)
(** ** Budgets of the shipped ratio and the size of the result *)

Lemma py_round_bounds (q : Q) :
  Qle (inject_Z (py_round q)) (Qplus q (1 # 2)) /\ Qle (Qminus q (1 # 2)) (inject_Z (py_round q)).
Proof.
  unfold py_round.
  pose proof (Qfloor_le q) as H1. pose proof (Qlt_floor q) as H2.
  rewrite inject_Z_plus in H2. change (inject_Z 1) with 1%Q in H2.
  set (f := Qfloor q) in *.
  destruct (Qcompare_spec (Qminus q (inject_Z f)) (1 # 2)) as [E|E|E];
    [destruct (Z.even f)|..];
    rewrite ?inject_Z_plus; change (inject_Z 1) with 1%Q; split; lra.
Qed.

Lemma round_zero_share (N : Z) : py_round (Qmult (inject_Z N) 0) = 0.
Proof.
  destruct (py_round_bounds (Qmult (inject_Z N) 0)) as [H1 H2].
  set (z := py_round _) in *.
  assert (z < 1 /\ -1 < z) as [Ha Hb]; [|lia].
  rewrite !Zlt_Qlt. change (inject_Z 1) with 1%Q. change (inject_Z (-1)) with (-1)%Q.
  split; lra.
Qed.

Lemma round_second_share (N : Z) :
  0 <= N -> 0 <= Z.max 0 (py_round (Qmult (inject_Z N) (4 # 10))) <= N /\
  (1 <= N -> Z.max 0 (py_round (Qmult (inject_Z N) (4 # 10))) <= N - 1).
Proof.
  intros HN. destruct (py_round_bounds (Qmult (inject_Z N) (4 # 10))) as [H1 _].
  set (z := py_round _) in *.
  pose proof HN as HNQ. rewrite Zle_Qle in HNQ. change (inject_Z 0) with 0%Q in HNQ.
  assert (z < N + 1) as Hz.
  { rewrite Zlt_Qlt, inject_Z_plus. change (inject_Z 1) with 1%Q. lra. }
  split; [lia|]. intros H1N.
  assert (z < N) as Hz'; [|lia].
  rewrite Zle_Qle in H1N. change (inject_Z 1) with 1%Q in H1N.
  rewrite Zlt_Qlt. lra.
Qed.

Lemma firstn_repeat_le {A} (x : A) (n m : nat) : (n <= m)%nat -> firstn n (repeat x m) = repeat x n.
Proof.
  revert m. induction n as [|n IH]; intros [|m] H; simpl; try reflexivity; [lia|].
  f_equal. apply IH. lia.
Qed.

Lemma sumZ_repeat0 (n : nat) : sumZ (repeat 0 n) = 0.
Proof. induction n; simpl; [reflexivity | exact IHn]. Qed.

(** With the shipped ratio [[0.6, 0.4]], the first budget is [N] minus
    the other budgets, which are the rounded [0.4] share for the second
    winner and [0] for any further one. *)
Lemma mixed_budget_form (k : string) (ks : list string) (N : Z) :
  exists cs, budget_counts MIXED_GENRE_RATIO (k :: ks) N = (N - sumZ cs) :: cs /\
    Forall (fun c => 0 <= c) cs /\
    sumZ cs = match ks with [] => 0 | _ => Z.max 0 (py_round (Qmult (inject_Z N) (4 # 10))) end.
Proof.
  unfold budget_counts, rounded_counts, pad_ratios, MIXED_GENRE_RATIO.
  destruct ks as [|k2 ks].
  - exists []. simpl. split; [f_equal; lia | split; [constructor | reflexivity]].
  - cbn [List.length app firstn].
    rewrite (firstn_repeat_le 0%Q (List.length ks) (S (S (List.length ks)))) by lia.
    cbn [map]. rewrite map_repeat, round_zero_share. change (Z.max 0 0) with 0.
    exists (Z.max 0 (py_round (Qmult (inject_Z N) (4 # 10))) :: repeat 0 (List.length ks)).
    split; [|split].
    + cbn [sumZ]. f_equal. lia.
    + constructor; [lia | apply Forall_forall; intros c Hc; apply repeat_spec in Hc; lia].
    + cbn [sumZ]. rewrite sumZ_repeat0. lia.
Qed.

Section MixedSize.
Variable fetch : Z -> Z -> http_outcome.

Lemma pick_top_unique_len (pool : list json) (n : Z) (picks : list json) :
  1 <= n -> pick_top_unique pool n true = Ok picks -> Z.of_nat (List.length picks) <= n.
Proof.
  unfold pick_top_unique. intros Hn H.
  destruct (decorate_movies pool) as [d|]; cbn [bind] in H; [|discriminate].
  destruct (unique_loop_spec _ n [] [] picks (conj eq_refl (conj (NoDup_nil _) (fun h => h)))
              (or_introl eq_refl) H) as [_ [Hl|Hl]]; lia.
Qed.

Lemma mixed_loop_len (pairs : list (string * Z)) (mixed : list (string * json)) :
  mixed_loop fetch pairs = Ok mixed ->
  Z.of_nat (List.length mixed) <= sumZ (map (fun p => Z.max 0 (snd p)) pairs).
Proof.
  revert mixed. induction pairs as [|[gkey n] rest IH]; cbn [mixed_loop]; intros mixed H.
  - inversion H; subst. simpl. lia.
  - cbn [map sumZ snd]. destruct (n <=? 0) eqn:En.
    + apply Z.leb_le in En. specialize (IH _ H). lia.
    + apply Z.leb_gt in En.
      destruct (genre gkey) as [prof|]; cbn [bind] in H; [|discriminate].
      destruct (fetch_movies_for_profile fetch prof n) as [pool|]; cbn [bind] in H; [|discriminate].
      destruct (pick_top_unique pool n true) as [picks|] eqn:Ep; cbn [bind] in H; [|discriminate].
      destruct (mixed_loop fetch rest) as [tail|] eqn:Et; cbn [bind] in H; [|discriminate].
      inversion H; subst. rewrite length_app, length_map.
      pose proof (pick_top_unique_len pool n picks ltac:(lia) Ep). specialize (IH _ eq_refl).
      lia.
Qed.
End MixedSize.

Lemma sumZ_max_ge0 (cs : list Z) : 0 <= sumZ (map (fun c => Z.max 0 c) cs).
Proof. induction cs; cbn [map sumZ]; lia. Qed.

Lemma sumZ_max_combine (ks : list string) (cs : list Z) :
  sumZ (map (fun p => Z.max 0 (snd p)) (combine ks cs)) <= sumZ (map (fun c => Z.max 0 c) cs).
Proof.
  revert cs. induction ks as [|k ks IH]; intros [|c cs]; cbn [combine map sumZ snd]; try lia.
  - pose proof (sumZ_max_ge0 cs). lia.
  - specialize (IH cs). lia.
Qed.

Lemma sumZ_max_nonneg (cs : list Z) : Forall (fun c => 0 <= c) cs -> sumZ (map (fun c => Z.max 0 c) cs) = sumZ cs.
Proof. induction 1; cbn [map sumZ]; lia. Qed.

(** [build_mixed_recommendations] never returns more than [total_count]
    movies, for any winners: with the shipped ratio no budget is
    negative, the budgets sum to [total_count], and each category
    contributes at most its budget. *)
Theorem mixed_at_most_total (fetch : Z -> Z -> http_outcome) (top_keys : list string)
  (total_count : Z) (mixed : list (string * json))
  (Hn : 0 <= total_count)
  (Hok : build_mixed_recommendations fetch top_keys total_count = Ok mixed) :
  Z.of_nat (List.length mixed) <= total_count.
Proof.
  pose proof (mixed_loop_len fetch _ _ Hok) as H.
  pose proof (sumZ_max_combine top_keys (budget_counts MIXED_GENRE_RATIO top_keys total_count)).
  destruct top_keys as [|k ks].
  - simpl in H. lia.
  - destruct (mixed_budget_form k ks total_count) as (cs & Hb & Hcs & Hsum).
    rewrite Hb in *. cbn [map sumZ] in *.
    rewrite sumZ_max_nonneg in * by exact Hcs.
    assert (sumZ cs <= total_count).
    { rewrite Hsum. destruct ks; [lia | apply (round_second_share total_count Hn)]. }
    lia.
Qed.

(** A catalog listing three movies, with posters, under every genre. *)
Definition three_movie_catalog (gid page : Z) : http_outcome :=
  Response 200 (Some (JObj [("results", JArr [movie 1 "Arrival"; movie 2 "Dune"; movie 3 "Up"])])).

Lemma mixed_at_most_total_witness :
  exists mixed,
  0 <= 3 /\ build_mixed_recommendations three_movie_catalog ["sf_fantasy"; "comedy"] 3 = Ok mixed /\
  List.length mixed = 3%nat /\ Z.of_nat (List.length mixed) <= 3.
Proof.
  eexists. assert (H : build_mixed_recommendations three_movie_catalog ["sf_fantasy"; "comedy"] 3
    = Ok [("sf_fantasy", movie 1 "Arrival"); ("sf_fantasy", movie 2 "Dune");
          ("comedy", movie 1 "Arrival")]) by reflexivity.
  split; [lia|]. split; [exact H|]. split; [reflexivity|].
  exact (mixed_at_most_total three_movie_catalog _ 3 _ ltac:(lia) H).
Defined.

Lemma genre_ids_nonempty (k : string) (p : GenreProfile) :
  genre k = Ok p -> exists g gs, tmdb_ids p = g :: gs.
Proof.
  unfold genre, GENRES. cbn [assoc].
  repeat match goal with |- context [String.eqb ?a ?b] => destruct (String.eqb a b) end;
  intros H; inversion H; subst; simpl; eauto.
Qed.

(** When every catalog call answers with an HTTP error status (4xx or
    5xx, as with a wrong API key), [build_mixed_recommendations] raises
    [HTTPError] for any known primary winner and [total_count >= 1]: the
    primary budget is then at least 1, so the first catalog call is made,
    and nothing catches the error before the caller. *)
Theorem mixed_http_error (s : Z) (b : option json) (Hs : status_error s = true)
  (k : string) (ks : list string) (prof : GenreProfile) (Hk : genre k = Ok prof)
  (N : Z) (HN : 1 <= N) :
  build_mixed_recommendations (fun _ _ => Response s b) (k :: ks) N = Err HTTPError.
Proof.
  unfold build_mixed_recommendations.
  destruct (mixed_budget_form k ks N) as (cs & Hb & _ & Hsum). rewrite Hb.
  assert (Hpos : sumZ cs <= N - 1).
  { rewrite Hsum. destruct ks; [lia | apply (round_second_share N ltac:(lia)); exact HN]. }
  cbn [combine mixed_loop].
  replace (N - sumZ cs <=? 0) with false by (symmetry; apply Z.leb_gt; lia).
  rewrite Hk. cbn [bind].
  destruct (genre_ids_nonempty k prof Hk) as (g & gs & Hids).
  unfold fetch_movies_for_profile. rewrite Hids. cbn [gid_loop page_loop].
  unfold tmdb_discover_movie, http_json. rewrite Hs. reflexivity.
Qed.

Lemma mixed_http_error_witness :
  status_error 401 = true /\ genre "comedy" = Ok (snd (nth 3 GENRES ("", Build_GenreProfile "" "" [] ""))) /\
  1 <= 6 /\
  build_mixed_recommendations (fun _ _ => Response 401 None) ["comedy"; "sf_fantasy"] 6
    = Err HTTPError.
Proof.
  assert (Hk : genre "comedy" = Ok (snd (nth 3 GENRES ("", Build_GenreProfile "" "" [] ""))))
    by reflexivity.
  split; [reflexivity|]. split; [exact Hk|]. split; [lia|].
  exact (mixed_http_error 401 None eq_refl "comedy" ["sf_fantasy"] _ Hk 6 ltac:(lia)).
Defined.

(* ----------------------------------------------------------------- *)
(** ** The pool of [fetch_movies_for_profile] *)

(** Every movie of [ms] has a truthy [id] ([if not mid: continue]). *)
Definition truthy_ids (ms : list json) : Prop := Forall (fun m => truthy (movie_id m) = true) ms.

Lemma chunk_loop_truthy (ms : list json) :
  forall results seen r,
  truthy_ids results -> chunk_loop ms results seen = Ok r -> truthy_ids (fst r).
Proof.
  induction ms as [|m ms IH]; cbn [chunk_loop]; intros results seen r Hinv Hr.
  - inversion Hr; subst. exact Hinv.
  - destruct (py_get m "id" JNull) as [mid|e] eqn:Eg; cbn [bind] in Hr; [|discriminate].
    destruct (negb (truthy mid)) eqn:Et; [eapply IH; eassumption|].
    destruct (to_hash mid) as [h|e]; cbn [bind] in Hr; [|discriminate].
    destruct (mem_h h seen); [eapply IH; eassumption|].
    apply (IH (results ++ [m])%list (h :: seen) r); [|exact Hr].
    apply Forall_app. split; [exact Hinv|]. constructor; [|constructor].
    rewrite (py_get_id _ _ Eg). apply negb_false_iff. exact Et.
Qed.

Section FetchTruthy.
Variable fetch : Z -> Z -> http_outcome.

Lemma page_loop_truthy (gid need : Z) (pages : list Z) :
  forall results seen r,
  truthy_ids results -> page_loop fetch gid need pages results seen = Ok r -> truthy_ids (fst r).
Proof.
  induction pages as [|p ps IH]; cbn [page_loop]; intros results seen r Hinv Hr.
  - inversion Hr; subst. exact Hinv.
  - destruct (tmdb_discover_movie fetch gid p) as [chunk|e]; cbn [bind] in Hr; [|discriminate].
    destruct (py_iter chunk) as [ms|e]; cbn [bind] in Hr; [|discriminate].
    destruct (chunk_loop ms results seen) as [st|e] eqn:Ec; cbn [bind] in Hr; [|discriminate].
    pose proof (chunk_loop_truthy ms results seen st Hinv Ec) as Hst.
    destruct (enough need (fst st)); [inversion Hr; subst; exact Hst|].
    exact (IH _ _ _ Hst Hr).
Qed.

Lemma gid_loop_truthy (need : Z) (gids : list Z) :
  forall results seen r,
  truthy_ids results -> gid_loop fetch need gids results seen = Ok r -> truthy_ids (fst r).
Proof.
  induction gids as [|g gs IH]; cbn [gid_loop]; intros results seen r Hinv Hr.
  - inversion Hr; subst. exact Hinv.
  - destruct (page_loop fetch g need [1; 2] results seen) as [st|e] eqn:Ep;
      cbn [bind] in Hr; [|discriminate].
    pose proof (page_loop_truthy g need [1; 2] results seen st Hinv Ep) as Hst.
    destruct (enough need (fst st)); [inversion Hr; subst; exact Hst|].
    exact (IH _ _ _ Hst Hr).
Qed.
End FetchTruthy.

(** The pool returned by [fetch_movies_for_profile] holds only movies
    with a truthy [id] (no missing, [null], [0] or empty id), and no two
    of them share an [id]. *)
Theorem fetch_pool_ids (fetch : Z -> Z -> http_outcome) (profile : GenreProfile) (need : Z)
  (pool : list json) :
  fetch_movies_for_profile fetch profile need = Ok pool ->
  Forall (fun m => truthy (movie_id m) = true) pool /\ NoDup (map hashed_id pool).
Proof.
  intros H. split; [|exact (fetch_movies_unique fetch profile need pool H)].
  unfold fetch_movies_for_profile in H.
  destruct (gid_loop fetch need (tmdb_ids profile) [] []) as [st|e] eqn:Eg;
    cbn [bind] in H; [|discriminate].
  inversion H; subst. exact (gid_loop_truthy fetch need _ [] [] st (Forall_nil _) Eg).
Qed.

(** A catalog page with a repeated movie and movies without an id. *)
Definition messy_catalog (gid page : Z) : http_outcome :=
  Response 200 (Some (JObj [("results", JArr [movie 1 "Arrival"; movie 0 "Zero";
    JObj [("title", JStr "No id")]; movie 1 "Arrival"; movie 2 "Dune"])])).

Lemma fetch_pool_ids_witness :
  exists pool,
  fetch_movies_for_profile messy_catalog (snd (nth 2 GENRES ("", Build_GenreProfile "" "" [] ""))) 6
    = Ok pool /\ pool = [movie 1 "Arrival"; movie 2 "Dune"] /\
  Forall (fun m => truthy (movie_id m) = true) pool /\ NoDup (map hashed_id pool).
Proof.
  eexists.
  assert (H : fetch_movies_for_profile messy_catalog
                (snd (nth 2 GENRES ("", Build_GenreProfile "" "" [] ""))) 6
              = Ok [movie 1 "Arrival"; movie 2 "Dune"]) by reflexivity.
  split; [exact H|]. split; [reflexivity|]. exact (fetch_pool_ids _ _ _ _ H).
Defined.

(* ----------------------------------------------------------------- *)
(** ** Percentages of [build_result_reason] *)

Lemma assoc_le_sum (k : string) (l : list (string * Z)) (v : Z) :
  Forall (fun kv => 0 <= snd kv) l -> assoc k l = Some v -> 0 <= v <= sumZ (map snd l).
Proof.
  induction l as [|[k' v'] l IH]; cbn [assoc]; intros Hf H; [discriminate|].
  inversion Hf as [|? ? Hv Hf']; subst. simpl in Hv.
  cbn [map sumZ snd].
  assert (0 <= sumZ (map snd l)).
  { clear -Hf'. induction l as [|kv l IHl]; cbn [map sumZ]; [lia|].
    inversion Hf'; subst. specialize (IHl ltac:(assumption)). lia. }
  destruct (String.eqb k k'); [inversion H; subst; lia|].
  specialize (IH Hf' H). lia.
Qed.

Lemma pct_range (s total : Z) :
  0 <= s <= total -> 1 <= total ->
  0 <= py_round (Qmult (Qdiv (inject_Z s) (inject_Z total)) (inject_Z 100)) <= 100.
Proof.
  intros Hs Ht.
  assert (HtQ : Qlt 0 (inject_Z total)).
  { change 0%Q with (inject_Z 0). rewrite <- Zlt_Qlt. lia. }
  assert (Hs0 : Qle 0 (inject_Z s)).
  { change 0%Q with (inject_Z 0). rewrite <- Zle_Qle. lia. }
  assert (Hst : Qle (inject_Z s) (inject_Z total)) by (rewrite <- Zle_Qle; lia).
  assert (Hlo : Qle 0 (Qdiv (inject_Z s) (inject_Z total))).
  { apply Qle_shift_div_l; [exact HtQ | lra]. }
  assert (Hhi : Qle (Qdiv (inject_Z s) (inject_Z total)) 1).
  { apply Qle_shift_div_r; [exact HtQ | lra]. }
  destruct (py_round_bounds (Qmult (Qdiv (inject_Z s) (inject_Z total)) (inject_Z 100)))
    as [H1 H2].
  set (x := Qdiv (inject_Z s) (inject_Z total)) in *.
  set (z := py_round _) in *. change (inject_Z 100) with 100%Q in H1, H2.
  assert (-1 < z /\ z < 101) as [Ha Hb]; [|lia].
  rewrite !Zlt_Qlt. change (inject_Z (-1)) with (-1)%Q. change (inject_Z 101) with 101%Q.
  split; lra.
Qed.

Lemma genre_label_of (k : string) (g : GenreProfile) : genre k = Ok g -> genre_label k = label g.
Proof. unfold genre, genre_label. destruct (assoc k GENRES); intros H; inversion H; reflexivity. Qed.

Lemma reason_parts_range (scores : list (string * Z)) (total : Z)
  (Hf : Forall (fun kv => 0 <= snd kv) scores) (Ht : 1 <= total)
  (Hle : sumZ (map snd scores) <= total) :
  forall top parts, reason_parts top scores total = Ok parts ->
  exists ps, List.length ps = List.length top /\ Forall (fun p => 0 <= p <= 100) ps /\
    parts = map (fun kp => genre_label (fst kp) ++ " " ++ str_Z (snd kp) ++ "%") (combine top ps).
Proof.
  induction top as [|k ks IH]; cbn [reason_parts]; intros parts H.
  - inversion H; subst. exists []. repeat split; constructor.
  - destruct (score_of k scores) as [s|] eqn:Es; cbn [bind] in H; [|discriminate].
    destruct (genre k) as [g|] eqn:Eg; cbn [bind] in H; [|discriminate].
    destruct (reason_parts ks scores total) as [rest|]; cbn [bind] in H; [|discriminate].
    inversion H; subst. destruct (IH rest eq_refl) as (ps & Hl & Hr & ->).
    unfold score_of in Es. destruct (assoc k scores) as [v|] eqn:Ea; inversion Es; subst.
    pose proof (assoc_le_sum k scores s Hf Ea).
    exists (py_round (Qmult (Qdiv (inject_Z s) (inject_Z total)) (inject_Z 100)) :: ps).
    split; [simpl; rewrite Hl; reflexivity|]. split.
    + constructor; [apply pct_range; lia | exact Hr].
    + cbn [combine map fst snd]. rewrite (genre_label_of k g Eg). reflexivity.
Qed.

(** With non-negative scores, the rationale of [build_result_reason] is
    the winners' labels, each followed by a percentage between 0 and 100,
    joined by [" / "]: a winner's share of the total never rounds outside
    [0, 100]. *)
Theorem reason_percentages (top_keys : list string) (scores : list (string * Z)) (s : string)
  (Hf : Forall (fun kv => 0 <= snd kv) scores)
  (Hok : build_result_reason top_keys scores = Ok s) :
  exists ps, List.length ps = List.length top_keys /\ Forall (fun p => 0 <= p <= 100) ps /\
    s = join " / " (map (fun kp => genre_label (fst kp) ++ " " ++ str_Z (snd kp) ++ "%")
                        (combine top_keys ps)).
Proof.
  unfold build_result_reason in Hok.
  assert (H0 : 0 <= sumZ (map snd scores)).
  { clear -Hf. induction scores as [|kv l IHl]; cbn [map sumZ]; [lia|].
    inversion Hf; subst. specialize (IHl ltac:(assumption)). lia. }
  destruct (reason_parts top_keys scores _) as [parts|] eqn:Ep; cbn [bind] in Hok; [|discriminate].
  inversion Hok; subst.
  destruct (sumZ (map snd scores) =? 0) eqn:Ez.
  - apply Z.eqb_eq in Ez.
    destruct (reason_parts_range scores 1 Hf ltac:(lia) ltac:(lia) _ _ Ep) as (ps & ? & ? & ->).
    exists ps. auto.
  - apply Z.eqb_neq in Ez.
    destruct (reason_parts_range scores (sumZ (map snd scores)) Hf ltac:(lia) ltac:(lia) _ _ Ep)
      as (ps & ? & ? & ->).
    exists ps. auto.
Qed.

Lemma reason_percentages_witness :
  Forall (fun kv => 0 <= snd kv) [("romance_drama", 0); ("action_adventure", 0);
                                   ("sf_fantasy", 4); ("comedy", 3)] /\
  build_result_reason ["sf_fantasy"; "comedy"]
    [("romance_drama", 0); ("action_adventure", 0); ("sf_fantasy", 4); ("comedy", 3)]
    = Ok "SF/판타지 57% / 코미디 43%" /\
  exists ps, List.length ps = 2%nat /\ Forall (fun p => 0 <= p <= 100) ps /\
    "SF/판타지 57% / 코미디 43%" = join " / " (map (fun kp => genre_label (fst kp) ++ " " ++
      str_Z (snd kp) ++ "%") (combine ["sf_fantasy"; "comedy"] ps)).
Proof.
  assert (Hf : Forall (fun kv => 0 <= snd kv) [("romance_drama", 0); ("action_adventure", 0);
                                   ("sf_fantasy", 4); ("comedy", 3)]).
  { repeat constructor; discriminate. }
  assert (H : build_result_reason ["sf_fantasy"; "comedy"]
    [("romance_drama", 0); ("action_adventure", 0); ("sf_fantasy", 4); ("comedy", 3)]
    = Ok "SF/판타지 57% / 코미디 43%") by reflexivity.
  split; [exact Hf|]. split; [exact H|].
  exact (reason_percentages _ _ _ Hf H).
Defined.

(* ----------------------------------------------------------------- *)
(** ** The quiz page of the movie app *)

(** A question of [QUESTIONS]: its [id], [text] and [(genre key, text)]
    options. *)
Record Question : Type := {
  qid : string;
  qtext : string;
  qoptions : list (string * string)
}.

Definition QUESTIONS : list Question := [
  {| qid := "q1";
     qtext := "1. 오랜만에 하루가 통째로 비는 날, 가장 하고 싶은 건?";
     qoptions := [
       ("romance_drama", "A. 좋아하는 음악 틀어놓고 카페나 산책하면서 생각 정리하기");
       ("action_adventure", "B. 즉흥으로 여행 떠나거나 새로운 액티비티 도전하기");
       ("sf_fantasy", "C. 밤새 세계관 있는 영화·드라마 정주행하기");
       ("comedy", "D. 친구들이랑 모여서 웃긴 영상이나 예능 보기")] |};
  {| qid := "q2";
     qtext := "2. 시험이 끝난 날, 나의 기분은?";
     qoptions := [
       ("romance_drama", "A. “고생했다 나 자신…” 감정이 몰려와서 괜히 센치해진다");
       ("action_adventure", "B. 해방감 MAX! 뭐든지 할 수 있을 것 같다");
       ("sf_fantasy", "C. 이제야 현실로 돌아온 느낌… 아직도 머리는 딴 데 가 있음");
       ("comedy", "D. 드디어 밈 돌려보고 썰 풀 시간이다")] |};
  {| qid := "q3";
     qtext := "3. 처음 만난 사람과 빨리 친해지는 방법은?";
     qoptions := [
       ("romance_drama", "A. 진지한 얘기하다가 공감대 생기기");
       ("action_adventure", "B. 같이 뭔가 해보면서 자연스럽게 친해지기");
       ("sf_fantasy", "C. 취향·덕질 얘기로 깊게 파고들기");
       ("comedy", "D. 농담 주고받다가 웃음 터지면서 친해지기")] |};
  {| qid := "q4";
     qtext := "4. 과제하다가 현실 도피하고 싶을 때 드는 생각은?";
     qoptions := [
       ("romance_drama", "A. “이 시기 지나면 좀 더 괜찮아지겠지…”");
       ("action_adventure", "B. “다 때려치우고 어디론가 떠나고 싶다”");
       ("sf_fantasy", "C. “이건 내가 있는 세계선이 잘못된 게 분명해”");
       ("comedy", "D. “이 상황 자체가 너무 웃기다ㅋㅋ”")] |};
  {| qid := "q5";
     qtext := "5. 영화 속 주인공이 된다면 가장 끌리는 설정은?";
     qoptions := [
       ("romance_drama", "A. 관계와 감정의 변화를 섬세하게 겪는 인물");
       ("action_adventure", "B. 위기 속에서 선택을 거듭하며 성장하는 인물");
       ("sf_fantasy", "C. 다른 세계나 규칙을 마주한 특별한 존재");
       ("comedy", "D. 사건 사고의 중심에서 분위기 메이커 역할")] |}
].

(** The errors the page may raise besides those of the core. *)
Inductive ui_error : Type :=
| UIExn (e : exn)
| IndexError
| ValueError.

Inductive ui_result (A : Type) : Type :=
| UIOk (a : A)
| UIErr (e : ui_error).
Arguments UIOk {A} a.
Arguments UIErr {A} e.

(** [f"{text}  —  [{GENRES[g].label}]"] for an option [(g, text)]. *)
Definition option_label (o : string * string) : result string :=
  g <- genre (fst o) ;; Ok (snd o ++ "  —  [" ++ label g ++ "]").

Fixpoint map_result {A B} (f : A -> result B) (l : list A) : result (list B) :=
  match l with
  | [] => Ok []
  | x :: l' => y <- f x ;; ys <- map_result f l' ;; Ok (y :: ys)
  end.

(** [labels = [... for g, text in q["options"]]] *)
Definition labels_of (q : Question) : result (list string) := map_result option_label (qoptions q).

(** [labels.index(picked)]; [None] is the [ValueError] of a missing label. *)
Fixpoint py_index (x : string) (l : list string) : option nat :=
  match l with
  | [] => None
  | y :: l' => if String.eqb x y then Some 0%nat
               else match py_index x l' with Some i => Some (S i) | None => None end
  end.

(** [d[k] = v] on a dict kept in insertion order. *)
Fixpoint dict_set (k v : string) (d : list (string * string)) : list (string * string) :=
  match d with
  | [] => [(k, v)]
  | (k', v') :: d' => if String.eqb k k' then (k, v) :: d' else (k', v') :: dict_set k v d'
  end.

(** The loop [for q in QUESTIONS] that builds [answers]; [picks] lists,
    question by question, the label returned by [st.radio] ([None] while
    no option is chosen). *)
Fixpoint quiz_answers (qs : list Question) (picks : list (option string))
    (answers : list (string * string)) : ui_result (list (string * string)) :=
  match qs with
  | [] => UIOk answers
  | q :: qs' =>
      let '(picked, ps) := match picks with [] => (None, []) | p :: ps => (p, ps) end in
      match labels_of q with
      | Err e => UIErr (UIExn e)
      | Ok labels =>
          let values := map fst (qoptions q) in
          match picked with
          | None => quiz_answers qs' ps answers
          | Some l =>
              match py_index l labels with
              | None => UIErr ValueError
              | Some idx => quiz_answers qs' ps (dict_set (qid q) (nth idx values "") answers)
              end
          end
      end
  end.

(** What the result part of the page shows once the button is pressed. *)
Inductive quiz_screen : Type :=
| QuizNeedsKey
| QuizIncomplete
| QuizShown (main_label reason main_reason : string) (top_keys : list string).

(** [if st.button("결과 보기"): ...] up to the result header and caption:
    the API key check, the completeness check, [score_answers],
    [pick_top_genres], [GENRES[top_keys[0]]] and [build_result_reason]. *)
Definition show_result (api_key : string) (answers : list (string * string)) : ui_result quiz_screen :=
  if String.eqb api_key "" then UIOk QuizNeedsKey
  else if (List.length answers <? List.length QUESTIONS)%nat then UIOk QuizIncomplete
  else match score_answers answers with
       | Err e => UIErr (UIExn e)
       | Ok scores =>
           let top_keys := pick_top_genres scores MIXED_GENRE_TOP_N in
           match top_keys with
           | [] => UIErr IndexError
           | k :: _ =>
               match genre k with
               | Err e => UIErr (UIExn e)
               | Ok main =>
                   match build_result_reason top_keys scores with
                   | Err e => UIErr (UIExn e)
                   | Ok reason => UIOk (QuizShown (label main) reason (base_reason main) top_keys)
                   end
               end
           end
       end.

(** The page: the questions are rendered, then the result part runs. *)
Definition quiz_page (api_key : string) (picks : list (option string)) : ui_result quiz_screen :=
  match quiz_answers QUESTIONS picks [] with
  | UIErr e => UIErr e
  | UIOk answers => show_result api_key answers
  end.

Lemma py_index_in (x : string) (l : list string) :
  In x l -> exists i, py_index x l = Some i /\ (i < List.length l)%nat.
Proof.
  induction l as [|y l IH]; simpl; intros H; [contradiction|].
  destruct (String.eqb x y) eqn:E; [exists 0%nat; split; [reflexivity | lia]|].
  destruct H as [->|H]; [rewrite String.eqb_refl in E; discriminate|].
  destruct (IH H) as (i & -> & Hi). exists (S i). split; [reflexivity | lia].
Qed.

Lemma map_result_length {A B} (f : A -> result B) (l : list A) (r : list B) :
  map_result f l = Ok r -> List.length r = List.length l.
Proof.
  revert r. induction l as [|x l IH]; cbn [map_result]; intros r H.
  - inversion H; reflexivity.
  - destruct (f x); cbn [bind] in H; [|discriminate].
    destruct (map_result f l) as [ys|]; cbn [bind] in H; [|discriminate].
    inversion H; subst. simpl. f_equal. apply IH. reflexivity.
Qed.

Lemma dict_set_new (k v : string) (d : list (string * string)) :
  ~ In k (map fst d) -> dict_set k v d = (d ++ [(k, v)])%list.
Proof.
  induction d as [|[k' v'] d IH]; simpl; intros H; [reflexivity|].
  destruct (String.eqb k k') eqn:E.
  - apply String.eqb_eq in E. subst. exfalso. apply H. left. reflexivity.
  - f_equal. apply IH. intros Hin. apply H. right. exact Hin.
Qed.

Definition count_some (picks : list (option string)) : nat :=
  List.length (filter (fun p => match p with Some _ => true | None => false end) picks).

Lemma count_some_lt (picks : list (option string)) :
  (count_some picks < List.length picks)%nat <-> In None picks.
Proof.
  unfold count_some. induction picks as [|p ps IH]; simpl; [split; [lia | tauto]|].
  assert (List.length (filter (fun p => match p with Some _ => true | None => false end) ps)
          <= List.length ps)%nat.
  { clear. induction ps as [|p ps IHp]; simpl; [lia|]. destruct p; simpl; lia. }
  destruct p as [l|]; simpl; split; intros H'.
  - right. apply IH. lia.
  - destruct H' as [H'|H']; [discriminate|]. apply IH in H'. lia.
  - left. reflexivity.
  - lia.
Qed.

Definition pick_ok (q : Question) (p : option string) : Prop :=
  match p with None => True | Some l => exists ls, labels_of q = Ok ls /\ In l ls end.

Lemma QUESTIONS_keys : Forall (fun q => Forall (fun o => In (fst o) genre_keys) (qoptions q)) QUESTIONS.
Proof.
  assert (H : forallb (fun q => forallb (fun o => existsb (String.eqb (fst o)) genre_keys)
                                        (qoptions q)) QUESTIONS = true) by (vm_compute; reflexivity).
  apply Forall_forall. intros q Hq. apply Forall_forall. intros o Ho.
  rewrite forallb_forall in H. specialize (H q Hq). rewrite forallb_forall in H.
  specialize (H o Ho). apply existsb_exists in H as (x & Hx & E).
  apply String.eqb_eq in E. rewrite E. exact Hx.
Qed.

Lemma QUESTIONS_ids : NoDup (map qid QUESTIONS).
Proof.
  change (map qid QUESTIONS) with ["q1"; "q2"; "q3"; "q4"; "q5"].
  repeat constructor; simpl; intros H; repeat destruct H as [H|H]; try discriminate; exact H.
Qed.

Lemma genre_ok (k : string) : In k genre_keys -> exists g, genre k = Ok g.
Proof.
  unfold genre_keys. simpl. intros H.
  destruct H as [<-|[<-|[<-|[<-|[]]]]]; eexists; reflexivity.
Qed.

Lemma labels_of_ok (q : Question) :
  Forall (fun o => In (fst o) genre_keys) (qoptions q) -> exists ls, labels_of q = Ok ls.
Proof.
  unfold labels_of. induction (qoptions q) as [|o os IH]; cbn [map_result]; intros Hk.
  - eexists; reflexivity.
  - inversion Hk as [|? ? Ho Hos]; subst. destruct (IH Hos) as (ys & Hys).
    destruct (genre_ok _ Ho) as (g & Hg).
    assert (Ho' : option_label o = Ok (snd o ++ "  —  [" ++ label g ++ "]"))
      by (unfold option_label; rewrite Hg; reflexivity).
    rewrite Ho'. cbn [bind]. rewrite Hys. eexists; reflexivity.
Qed.

Lemma quiz_answers_spec (qs : list Question) :
  forall picks answers,
  Forall (fun q => Forall (fun o => In (fst o) genre_keys) (qoptions q)) qs ->
  NoDup (map qid qs) -> (forall q, In q qs -> ~ In (qid q) (map fst answers)) ->
  (forall k v, In (k, v) answers -> In v genre_keys) ->
  Forall2 pick_ok qs picks ->
  exists answers', quiz_answers qs picks answers = UIOk answers' /\
    List.length answers' = (List.length answers + count_some picks)%nat /\
    (forall k v, In (k, v) answers' -> In v genre_keys).
Proof.
  induction qs as [|q qs IH]; intros picks answers Hk Hid Hfresh Hv Hp.
  - inversion Hp; subst. exists answers. unfold count_some. simpl. split; [reflexivity|].
    split; [lia | exact Hv].
  - inversion Hp as [|? p ? ps Hq Hps]; subst. cbn [quiz_answers].
    inversion Hk as [|? ? Hkq Hk']; subst. inversion Hid as [|? ? Hnin Hid']; subst.
    assert (Hfresh' : forall q', In q' qs -> ~ In (qid q') (map fst answers)).
    { intros q' Hq'. apply Hfresh. right. exact Hq'. }
    destruct p as [l|].
    + destruct Hq as (ls & Hls & Hin). rewrite Hls.
      destruct (py_index_in l ls Hin) as (i & -> & Hi).
      rewrite dict_set_new by (apply Hfresh; left; reflexivity).
      destruct (IH ps (answers ++ [(qid q, nth i (map fst (qoptions q)) "")])%list Hk' Hid')
        as (a' & Ha & Hlen & Hv').
      * intros q' Hq'. rewrite map_app, in_app_iff. simpl. intros [H|[H|[]]].
        -- exact (Hfresh q' (or_intror Hq') H).
        -- apply Hnin. rewrite H. apply in_map. exact Hq'.
      * intros k v Hkv. apply in_app_or in Hkv as [Hkv|[Hkv|[]]]; [exact (Hv k v Hkv)|].
        inversion Hkv; subst. rewrite (map_result_length _ _ _ Hls) in Hi.
        rewrite Forall_forall in Hkq.
        replace (nth i (map fst (qoptions q)) "") with (fst (nth i (qoptions q) ("", "")))
          by (symmetry; exact (map_nth fst (qoptions q) ("", "") i)).
        apply Hkq, nth_In. exact Hi.
      * exact Hps.
      * exists a'. split; [exact Ha|]. split; [|exact Hv'].
        rewrite Hlen, length_app. unfold count_some. simpl. lia.
    + destruct (labels_of_ok q Hkq) as (ls & Hls). rewrite Hls.
      destruct (IH ps answers Hk' Hid' Hfresh' Hv Hps) as (a' & Ha & Hlen & Hv').
      exists a'. split; [exact Ha|]. split; [|exact Hv']. rewrite Hlen. unfold count_some. simpl. lia.
Qed.

Lemma assoc_in_keys (k : string) (l : list (string * Z)) :
  In k (map fst l) -> exists v, assoc k l = Some v.
Proof.
  induction l as [|[k' v'] l IH]; simpl; intros H; [contradiction|].
  destruct (String.eqb k k') eqn:E; [eexists; reflexivity|].
  destruct H as [->|H]; [rewrite String.eqb_refl in E; discriminate | exact (IH H)].
Qed.

Lemma reason_parts_ok (scores : list (string * Z)) (total : Z) (Hk : map fst scores = genre_keys) :
  forall top, incl top genre_keys -> exists parts, reason_parts top scores total = Ok parts.
Proof.
  induction top as [|k ks IH]; cbn [reason_parts]; intros Hi; [eexists; reflexivity|].
  assert (Hk' : In k genre_keys) by (apply Hi; left; reflexivity).
  destruct (assoc_in_keys k scores) as (v & Hv); [rewrite Hk; exact Hk'|].
  destruct (genre_ok k Hk') as (g & Hg).
  destruct IH as (parts & Hp); [intros y Hy; apply Hi; right; exact Hy|].
  unfold score_of. rewrite Hv. cbn [bind]. rewrite Hg. cbn [bind]. rewrite Hp. cbn [bind].
  eexists; reflexivity.
Qed.

Lemma nodup_firstn {A} (n : nat) (l : list A) : NoDup l -> NoDup (firstn n l).
Proof.
  intros H. rewrite <- (firstn_skipn n l) in H. exact (NoDup_app_remove_r _ _ H).
Qed.

Lemma in_firstn_l {A} (n : nat) (l : list A) (x : A) : In x (firstn n l) -> In x l.
Proof.
  intros H. rewrite <- (firstn_skipn n l). apply in_or_app. left. exact H.
Qed.

(** The quiz page of the movie app never raises, whatever options are
    chosen on its radio buttons: it asks for the API key when none is
    given, asks for the missing answers when a question is unanswered,
    and otherwise shows two distinct winning categories, headed by the
    label and reason of the first. *)
Theorem quiz_page_never_raises (api_key : string) (picks : list (option string))
  (Hp : Forall2 pick_ok QUESTIONS picks) :
  exists screen, quiz_page api_key picks = UIOk screen /\
  match screen with
  | QuizNeedsKey => api_key = ""
  | QuizIncomplete => api_key <> "" /\ In None picks
  | QuizShown lbl reason base top =>
      api_key <> "" /\ ~ In None picks /\ List.length top = 2%nat /\ NoDup top /\
      incl top genre_keys /\
      exists main, genre (hd "" top) = Ok main /\ lbl = label main /\ base = base_reason main
  end.
Proof.
  destruct (quiz_answers_spec QUESTIONS picks [] QUESTIONS_keys QUESTIONS_ids
              (fun q _ H => H) (fun k v H => match H with end) Hp) as (answers & Ha & Hlen & Hv).
  unfold quiz_page. rewrite Ha. unfold show_result.
  destruct (String.eqb api_key "") eqn:Ek.
  { eexists. split; [reflexivity|]. apply String.eqb_eq. exact Ek. }
  apply String.eqb_neq in Ek.
  pose proof (Forall2_length Hp) as HL. simpl in Hlen.
  destruct (List.length answers <? List.length QUESTIONS)%nat eqn:Ec.
  { eexists. split; [reflexivity|]. split; [exact Ek|].
    apply count_some_lt. apply Nat.ltb_lt in Ec. lia. }
  apply Nat.ltb_ge in Ec.
  assert (Hall : ~ In None picks) by (rewrite <- count_some_lt; lia).
  unfold score_answers.
  assert (Hz : map fst (map (fun k => (k, 0)) genre_keys) = genre_keys)
    by (rewrite map_map; apply map_id).
  destruct (score_loop_ok answers (map (fun k => (k, 0)) genre_keys)) as (s' & Hs & Hk & _).
  { intros q g Hin. rewrite Hz. exact (Hv q g Hin). }
  rewrite Hz in Hk. rewrite Hs.
  set (top := pick_top_genres s' MIXED_GENRE_TOP_N).
  assert (Hperm : Permutation (map fst (ordered_scores s')) genre_keys).
  { rewrite <- Hk. apply Permutation_map, ordered_scores_perm. }
  assert (Htop : top = firstn 2 (map fst (ordered_scores s'))).
  { unfold top, pick_top_genres, MIXED_GENRE_TOP_N. rewrite firstn_map. reflexivity. }
  assert (Hlen2 : List.length top = 2%nat).
  { rewrite Htop, length_firstn, (Permutation_length Hperm). reflexivity. }
  assert (Hnd : NoDup top).
  { rewrite Htop. apply nodup_firstn. apply (Permutation_NoDup (Permutation_sym Hperm)).
    exact genre_keys_nodup. }
  assert (Hincl : incl top genre_keys).
  { intros x Hx. rewrite Htop in Hx. apply in_firstn_l in Hx.
    exact (Permutation_in _ Hperm Hx). }
  destruct top as [|k rest] eqn:Et; [discriminate|].
  destruct (genre_ok k (Hincl k (or_introl eq_refl))) as (main & Hm). rewrite Hm.
  unfold build_result_reason.
  destruct (reason_parts_ok s' (if sumZ (map snd s') =? 0 then 1 else sumZ (map snd s')) Hk
              (k :: rest) Hincl) as (parts & Hparts).
  cbv zeta. rewrite Hparts. cbn [bind].
  eexists. split; [reflexivity|].
  split; [exact Ek|]. split; [exact Hall|]. split; [exact Hlen2|]. split; [exact Hnd|].
  split; [exact Hincl|]. exists main. split; [exact Hm|]. split; reflexivity.
Qed.

(** The label [st.radio] returns when option [i] of [q] is chosen. *)
Definition pick_label (q : Question) (i : nat) : option string :=
  match labels_of q with Ok ls => Some (nth i ls "") | Err _ => None end.

Definition sf_picks : list (option string) := map (fun q => pick_label q 2) QUESTIONS.

Lemma quiz_page_never_raises_witness :
  Forall2 pick_ok QUESTIONS sf_picks /\
  quiz_page "key" sf_picks
    = UIOk (QuizShown "SF/판타지" "SF/판타지 100% / 액션/어드벤처 0%"
              (base_reason (snd (nth 2 GENRES ("", Build_GenreProfile "" "" [] ""))))
              ["sf_fantasy"; "action_adventure"]) /\
  exists screen, quiz_page "key" sf_picks = UIOk screen /\
  match screen with
  | QuizNeedsKey => "key" = ""
  | QuizIncomplete => "key" <> "" /\ In None sf_picks
  | QuizShown lbl reason base top =>
      "key" <> "" /\ ~ In None sf_picks /\ List.length top = 2%nat /\ NoDup top /\
      incl top genre_keys /\
      exists main, genre (hd "" top) = Ok main /\ lbl = label main /\ base = base_reason main
  end.
Proof.
  assert (Hp : Forall2 pick_ok QUESTIONS sf_picks).
  { unfold sf_picks, QUESTIONS. cbn [map].
    repeat constructor; unfold pick_ok, pick_label;
      match goal with |- context [labels_of ?q] =>
        let ls := eval vm_compute in (labels_of q) in
        match ls with Ok ?l => exists l; split; [vm_compute; reflexivity|] end end;
      vm_compute; right; right; left; reflexivity. }
  split; [exact Hp|]. split; [vm_compute; reflexivity|].
  exact (quiz_page_never_raises "key" sf_picks Hp).
Defined.

(* ----------------------------------------------------------------- *)
(** ** MoodPick history ([load_history], [save_history], [add_history_entry]) *)

(** The history file, by what [json.loads(HISTORY_FILE.read_text(...))]
    gives: no file, a file that cannot be read or decoded ([None]), or
    a decoded JSON value. [save_history] writes [json.dumps(items)],
    which [json.loads] decodes back to [items]. *)
Inductive history_file : Type :=
| NoFile
| FileText (decoded : option json).

(** [load_history()] *)
Definition load_history (f : history_file) : json :=
  match f with
  | NoFile => JArr []
  | FileText None => JArr []
  | FileText (Some v) => v
  end.

(** [save_history(items)] *)
Definition save_history (items : list json) : history_file := FileText (Some (JArr items)).

(** [add_history_entry(entry)]: [history.insert(0, entry)] needs a list. *)
Definition add_history_entry (entry : json) (f : history_file) : result history_file :=
  match load_history f with
  | JArr h => Ok (save_history (entry :: h))
  | _ => Err AttributeError
  end.

(** Saving [entries] one after the other (each a click on the save
    button). *)
Fixpoint add_history_entries (entries : list json) (f : history_file) : result history_file :=
  match entries with
  | [] => Ok f
  | e :: es => f' <- add_history_entry e f ;; add_history_entries es f'
  end.

(** Saving entries one after the other keeps the history newest first:
    starting from a file that is missing, unreadable or holds a list [h],
    [load_history] afterwards returns the saved entries in reverse order
    of saving, followed by [h]. A file holding JSON other than a list
    makes the first [add_history_entry] raise [AttributeError]. *)
Theorem history_newest_first (entries : list json) (f : history_file) :
  (forall h, load_history f = JArr h ->
     exists f', add_history_entries entries f = Ok f' /\
                load_history f' = JArr (rev entries ++ h)) /\
  ((forall h, load_history f <> JArr h) -> entries <> [] ->
     add_history_entries entries f = Err AttributeError).
Proof.
  split.
  - revert f. induction entries as [|e es IH]; intros f h Hf; cbn [add_history_entries].
    + exists f. split; [reflexivity | exact Hf].
    + unfold add_history_entry. rewrite Hf. cbn [bind].
      destruct (IH (save_history (e :: h)) (e :: h) eq_refl) as (f' & Ha & Hl).
      exists f'. split; [exact Ha|]. rewrite Hl. simpl. rewrite <- app_assoc. reflexivity.
  - intros Hn Hne. destruct entries as [|e es]; [contradiction|]. cbn [add_history_entries].
    unfold add_history_entry.
    destruct (load_history f) eqn:E; try reflexivity. exfalso. exact (Hn xs eq_refl).
Qed.

Definition entry (n : Z) : json := JObj [("saved_at", JNum n)].

Lemma history_newest_first_witness :
  load_history (FileText None) = JArr [] /\
  add_history_entries [entry 1; entry 2] (FileText None)
    = Ok (save_history [entry 2; entry 1]) /\
  (exists f', add_history_entries [entry 1; entry 2] (FileText None) = Ok f' /\
              load_history f' = JArr (rev [entry 1; entry 2] ++ [])) /\
  add_history_entries [entry 1] (FileText (Some (JObj []))) = Err AttributeError.
Proof.
  split; [reflexivity|]. split; [reflexivity|]. split.
  - exact (proj1 (history_newest_first [entry 1; entry 2] (FileText None)) [] eq_refl).
  - apply (proj2 (history_newest_first [entry 1] (FileText (Some (JObj []))))); discriminate.
Defined.

(** MoodPick API keys. [secrets] is [st.secrets] ([Err] when it cannot
    be read, which [get_secret] catches), [env] the process environment
    and [session] [st.session_state]; Python's [None] is [JNull]. *)
Definition get_secret (secrets : result (list (string * json))) (key_name : string)
  : option string :=
  match secrets with
  | Ok tbl =>
      match assoc key_name tbl with
      | Some (JStr val) => if String.eqb (py_strip val) "" then None else Some (py_strip val)
      | _ => None
      end
  | Err _ => None
  end.

Definition json_of_option (o : option string) : json :=
  match o with Some s => JStr s | None => JNull end.

(** The body shared by [get_openai_key] and [get_tmdb_key]. *)
Definition get_api_key (secret_name env_name session_name : string)
  (secrets : result (list (string * json))) (env : list (string * string))
  (session : list (string * json)) : option string :=
  let key := json_of_option (get_secret secrets secret_name) in
  let key :=
    if truthy key then key
    else let e := py_strip (match assoc env_name env with Some v => v | None => "" end) in
         py_or (JStr e) JNull in
  let key :=
    if truthy key then key
    else match assoc session_name session with Some v => v | None => JNull end in
  match key with
  | JStr s => if String.eqb (py_strip s) "" then None else Some (py_strip s)
  | _ => None
  end.

Definition get_openai_key := get_api_key "OPENAI_API_KEY" "OPENAI_API_KEY" "openai_key".

Definition get_tmdb_key := get_api_key "TMDB_API_KEY" "TMDB_API_KEY" "tmdb_key".

Lemma prefixb_app (w l : list ascii) : prefixb w l = true -> exists t, l = (w ++ t)%list.
Proof.
  revert l. induction w as [|a w IH]; intros l H; [exists l; reflexivity|].
  destruct l as [|b l]; [discriminate|]. cbn [prefixb] in H.
  apply andb_prop in H as [Hab H]. apply Ascii.eqb_eq in Hab. subst b.
  destruct (IH l H) as [t ->]. exists t. reflexivity.
Qed.

Lemma prefixb_extend (w b t : list ascii) : prefixb w b = true -> prefixb w (b ++ t)%list = true.
Proof.
  revert b. induction w as [|a w IH]; intros b H; [reflexivity|].
  destruct b as [|c b]; [discriminate|]. cbn [prefixb app] in H |- *.
  apply andb_prop in H as [Hab H]. rewrite Hab. simpl. apply IH, H.
Qed.

Section Strip.
Variable ws : list (list ascii).
Hypothesis ws_nonempty : forall w, In w ws -> w <> [].

Lemma strip_fuel_fixed (n : nat) (l : list ascii) :
  (forall w, In w ws -> prefixb w l = false) -> strip_fuel ws n l = l.
Proof.
  intros H. destruct n as [|n]; [reflexivity|]. cbn [strip_fuel].
  destruct (find (fun w => prefixb w l) ws) as [w|] eqn:E; [|reflexivity].
  apply find_some in E as [Hin Hp]. rewrite (H w Hin) in Hp. discriminate.
Qed.

Lemma strip_fuel_suffix (n : nat) (l : list ascii) :
  exists p, l = (p ++ strip_fuel ws n l)%list.
Proof.
  revert l. induction n as [|n IH]; intros l; cbn [strip_fuel]; [exists []; reflexivity|].
  destruct (find (fun w => prefixb w l) ws) as [w|]; [|exists []; reflexivity].
  destruct (IH (skipn (List.length w) l)) as [p Hp].
  exists (firstn (List.length w) l ++ p)%list.
  rewrite <- app_assoc, <- Hp. symmetry. apply firstn_skipn.
Qed.

Lemma strip_fuel_done (n : nat) (l : list ascii) :
  (List.length l <= n)%nat -> forall w, In w ws -> prefixb w (strip_fuel ws n l) = false.
Proof.
  revert l. induction n as [|n IH]; intros l Hl w Hw; cbn [strip_fuel].
  - destruct l; [|simpl in Hl; lia].
    destruct w as [|a w]; [exfalso; exact (ws_nonempty [] Hw eq_refl) | reflexivity].
  - destruct (find (fun w => prefixb w l) ws) as [v|] eqn:E.
    + apply find_some in E as [Hin Hp]. apply IH; [|exact Hw].
      destruct (prefixb_app v l Hp) as [t ->].
      rewrite skipn_app, Nat.sub_diag, skipn_all. simpl. rewrite length_app in Hl.
      destruct v as [|a v]; [exfalso; exact (ws_nonempty [] Hin eq_refl)|]. simpl in Hl. lia.
    + exact (find_none _ _ E w Hw).
Qed.

Lemma lstrip_with_done (l : list ascii) :
  forall w, In w ws -> prefixb w (lstrip_with ws l) = false.
Proof. apply strip_fuel_done. lia. Qed.

Lemma lstrip_with_suffix (l : list ascii) : exists p, l = (p ++ lstrip_with ws l)%list.
Proof. apply strip_fuel_suffix. Qed.

Lemma lstrip_with_idem (l : list ascii) : lstrip_with ws (lstrip_with ws l) = lstrip_with ws l.
Proof. unfold lstrip_with at 1. apply strip_fuel_fixed, lstrip_with_done. Qed.

(** A prefix of a stripped list is left unchanged by the strip. *)
Lemma lstrip_with_prefix (b t : list ascii) :
  lstrip_with ws (b ++ t)%list = (b ++ t)%list -> lstrip_with ws b = b.
Proof.
  intros H. unfold lstrip_with. apply strip_fuel_fixed. intros w Hw.
  destruct (prefixb w b) eqn:E; [|reflexivity].
  pose proof (lstrip_with_done (b ++ t)%list w Hw) as Hd. rewrite H in Hd.
  rewrite (prefixb_extend w b t E) in Hd. discriminate.
Qed.
End Strip.

Lemma WS_SEQS_nonempty : forall w, In w WS_SEQS -> w <> [].
Proof.
  assert (Hb : forallb (fun w => negb (match w with [] => true | _ => false end)) WS_SEQS = true)
    by (vm_compute; reflexivity).
  intros w Hw ->. rewrite forallb_forall in Hb. specialize (Hb [] Hw). discriminate.
Qed.

Lemma RWS_SEQS_nonempty : forall w, In w (map (@rev ascii) WS_SEQS) -> w <> [].
Proof.
  intros w Hw Hnil. apply in_map_iff in Hw as (v & Hv & Hin). subst w.
  apply (WS_SEQS_nonempty v Hin). destruct v as [|a v]; [reflexivity|].
  simpl in Hnil. destruct (rev v); discriminate.
Qed.

Lemma py_strip_idem (s : string) : py_strip (py_strip s) = py_strip s.
Proof.
  unfold py_strip. rewrite list_ascii_of_string_of_list_ascii.
  set (R := map (@rev ascii) WS_SEQS).
  set (A := lstrip_with WS_SEQS (list_ascii_of_string s)).
  set (B := rev (lstrip_with R (rev A))).
  destruct (lstrip_with_suffix R (rev A)) as [p Hp].
  assert (HA : A = (B ++ rev p)%list).
  { unfold B. rewrite <- rev_app_distr, <- Hp, rev_involutive. reflexivity. }
  assert (HB : lstrip_with WS_SEQS B = B).
  { apply (lstrip_with_prefix WS_SEQS WS_SEQS_nonempty B (rev p)). rewrite <- HA.
    unfold A. apply (lstrip_with_idem WS_SEQS WS_SEQS_nonempty). }
  rewrite HB. unfold B. rewrite rev_involutive, (lstrip_with_idem R RWS_SEQS_nonempty).
  reflexivity.
Qed.

Lemma api_key_final (j : json) (k : string) :
  match j with
  | JStr s => if String.eqb (py_strip s) "" then None else Some (py_strip s)
  | _ => None
  end = Some k -> py_strip k = k /\ k <> "".
Proof.
  destruct j; try discriminate.
  destruct (String.eqb (py_strip s) "") eqn:E; [discriminate|].
  intros H. inversion H. subst. split; [apply py_strip_idem|].
  intros Hk. rewrite Hk in E. discriminate.
Qed.

Lemma get_secret_some secrets name v :
  get_secret secrets name = Some v -> py_strip v = v /\ String.eqb v "" = false.
Proof.
  unfold get_secret. destruct secrets as [tbl|e]; [|discriminate].
  destruct (assoc name tbl) as [[]|]; try discriminate.
  destruct (String.eqb (py_strip s) "") eqn:E; [discriminate|].
  intros H. inversion H. subst. split; [apply py_strip_idem | exact E].
Qed.

(** [get_openai_key] and [get_tmdb_key] (both [get_api_key]): a key they
    return is already stripped and non-empty; a non-blank string secret
    wins over everything else; without one, a non-blank environment
    variable wins over the session; without both, only a session value
    that is a non-blank string gives a key (its stripped form). *)
Theorem api_key_priority (secret_name env_name session_name : string)
  (secrets : result (list (string * json))) (env : list (string * string))
  (session : list (string * json)) :
  let get := get_api_key secret_name env_name session_name secrets env session in
  (forall k, get = Some k -> py_strip k = k /\ k <> "") /\
  (forall v, get_secret secrets secret_name = Some v -> get = Some v) /\
  (get_secret secrets secret_name = None ->
     forall v, assoc env_name env = Some v -> py_strip v <> "" -> get = Some (py_strip v)) /\
  (get_secret secrets secret_name = None ->
     (forall v, assoc env_name env = Some v -> py_strip v = "") ->
     get = match assoc session_name session with
           | Some (JStr s) => if String.eqb (py_strip s) "" then None else Some (py_strip s)
           | _ => None
           end).
Proof.
  intros get. unfold get, get_api_key. cbv zeta.
  split; [intros k; apply api_key_final|].
  split; [|split].
  - intros v Hv. rewrite Hv. destruct (get_secret_some _ _ _ Hv) as [Hs He].
    assert (Ht : truthy (JStr v) = true) by (cbn [truthy]; rewrite He; reflexivity).
    cbn [json_of_option]. repeat (rewrite Ht; cbv iota). rewrite Hs, He. reflexivity.
  - intros Hn v Hv Hne. rewrite Hn, Hv. cbn [json_of_option truthy].
    destruct (String.eqb (py_strip v) "") eqn:E.
    + apply String.eqb_eq in E. contradiction.
    + assert (Ht : truthy (JStr (py_strip v)) = true) by (cbn [truthy]; rewrite E; reflexivity).
      unfold py_or. rewrite Ht. cbv iota. rewrite Ht. cbv iota.
      rewrite py_strip_idem, E. reflexivity.
  - intros Hn Henv. rewrite Hn. cbn [json_of_option truthy].
    assert (He : py_strip (match assoc env_name env with Some v => v | None => "" end) = "").
    { destruct (assoc env_name env) as [v|] eqn:Ev; [exact (Henv v eq_refl) | reflexivity]. }
    rewrite He. change (py_or (JStr "") JNull) with JNull. cbn [truthy]. cbv iota.
    destruct (assoc session_name session) as [[]|]; reflexivity.
Qed.

Definition demo_secrets : result (list (string * json)) :=
  Ok [("OPENAI_API_KEY", JStr "  sk-secret ")].

Lemma api_key_priority_witness :
  get_openai_key demo_secrets [("OPENAI_API_KEY", "sk-env")] [("openai_key", JStr "sk-typed")]
    = Some "sk-secret" /\
  get_tmdb_key (Err (KeyError "TMDB_API_KEY")) [("TMDB_API_KEY", " tm-env")] []
    = Some "tm-env" /\
  get_tmdb_key (Ok []) [("TMDB_API_KEY", "   ")] [("tmdb_key", JStr " tm-typed ")]
    = Some "tm-typed" /\
  get_openai_key (Ok [("OPENAI_API_KEY", JStr " ")]) [("OPENAI_API_KEY", "sk-env")] []
    = Some "sk-env".
Proof.
  split; [|split; [|split]].
  - exact (proj1 (proj2 (api_key_priority "OPENAI_API_KEY" "OPENAI_API_KEY" "openai_key"
      demo_secrets [("OPENAI_API_KEY", "sk-env")] [("openai_key", JStr "sk-typed")]))
      "sk-secret" eq_refl).
  - exact (proj1 (proj2 (proj2 (api_key_priority "TMDB_API_KEY" "TMDB_API_KEY" "tmdb_key"
      (Err (KeyError "TMDB_API_KEY")) [("TMDB_API_KEY", " tm-env")] [])))
      eq_refl " tm-env" eq_refl ltac:(discriminate)).
  - exact (proj2 (proj2 (proj2 (api_key_priority "TMDB_API_KEY" "TMDB_API_KEY" "tmdb_key"
      (Ok []) [("TMDB_API_KEY", "   ")] [("tmdb_key", JStr " tm-typed ")])))
      eq_refl (fun v Hv => match Hv in _ = o return match o with Some w => py_strip w = "" | None => True end
                           with eq_refl => eq_refl end)).
  - exact (proj1 (proj2 (proj2 (api_key_priority "OPENAI_API_KEY" "OPENAI_API_KEY" "openai_key"
      (Ok [("OPENAI_API_KEY", JStr " ")]) [("OPENAI_API_KEY", "sk-env")] [])))
      eq_refl "sk-env" eq_refl ltac:(discriminate)).
Defined.
